(** * RotationControl: the angle normaliser, the drag tracker and the
      numeric field of [src/app/detection/components/RotationControl.tsx].

    The component computes on JavaScript numbers, which are IEEE-754
    binary64 values.  The embedding keeps them as such: a finite binary64
    is an integer multiple of 2^-1074 (the smallest subnormal), so a
    finite number is stored as that integer, and every arithmetic result
    is rounded to nearest, ties to even, on 53 bits. *)

From Stdlib Require Import ZArith List Bool Lia String Ascii.
From Stdlib Require Import Floats.PrimFloat Floats.SpecFloat Floats.FloatOps.
Import ListNotations.
Local Open Scope Z_scope.

(** ** JavaScript numbers *)

Module Num.

(** [Fin n] is the finite number n * 2^-1074; [Fin 0] is +0. *)
Inductive number : Type :=
| NaN
| PosInf
| NegInf
| NegZero
| Fin (n : Z).

(** One unit in the scaled representation: [U] stands for 1.0. *)
Definition U : Z := 2 ^ 1074.

(** First magnitude that overflows to an infinity: 2^1024. *)
Definition overflow : Z := 2 ^ 2098.

(** [rne n k] is n / 2^k rounded to the nearest integer, ties to even. *)
Definition rne (n k : Z) : Z :=
  let q := n / 2 ^ k in
  let r := n mod 2 ^ k in
  match 2 * r ?= 2 ^ k with
  | Lt => q
  | Gt => q + 1
  | Eq => if Z.even q then q else q + 1
  end.

(** Number of low bits a value of this size cannot keep. *)
Definition excess (n : Z) : Z := Z.max (Z.log2 (Z.abs n) + 1 - 53) 0.

(** Rounding of the exact scaled result [n] to binary64. *)
Definition round (n : Z) : number :=
  let k := excess n in
  let m := rne n k * 2 ^ k in
  if overflow <=? Z.abs m then (if m <? 0 then NegInf else PosInf) else Fin m.

(** The number value of a mathematical integer. *)
Definition of_Z (z : Z) : number := round (z * U).

Definition opp (a : number) : number :=
  match a with
  | NaN => NaN
  | PosInf => NegInf
  | NegInf => PosInf
  | NegZero => Fin 0
  | Fin 0 => NegZero
  | Fin n => Fin (- n)
  end.

(** [a + b] *)
Definition add (a b : number) : number :=
  match a, b with
  | NaN, _ | _, NaN => NaN
  | PosInf, NegInf | NegInf, PosInf => NaN
  | PosInf, _ | _, PosInf => PosInf
  | NegInf, _ | _, NegInf => NegInf
  | NegZero, NegZero => NegZero
  | NegZero, Fin n | Fin n, NegZero => Fin n
  | Fin n, Fin m => round (n + m)
  end.

(** [a - b] *)
Definition sub (a b : number) : number := add a (opp b).

(** [a % b]: the remainder has the sign of the dividend and is exact. *)
Definition rem (a b : number) : number :=
  match a, b with
  | NaN, _ | _, NaN => NaN
  | PosInf, _ | NegInf, _ => NaN
  | _, NegZero | _, Fin 0 => NaN
  | _, PosInf | _, NegInf => a
  | NegZero, _ => NegZero
  | Fin n, Fin d =>
      let r := Z.rem n d in
      if r =? 0 then (if n <? 0 then NegZero else Fin 0) else Fin r
  end.

(** [a < b] *)
Definition lt (a b : number) : bool :=
  match a, b with
  | NaN, _ | _, NaN => false
  | PosInf, _ => false
  | _, PosInf => true
  | _, NegInf => false
  | NegInf, _ => true
  | NegZero, NegZero => false
  | NegZero, Fin m => 0 <? m
  | Fin n, NegZero => n <? 0
  | Fin n, Fin m => n <? m
  end.

(** [a === b] on numbers: NaN differs from itself, the zeros are equal. *)
Definition strictEq (a b : number) : bool :=
  match a, b with
  | NaN, _ | _, NaN => false
  | PosInf, PosInf | NegInf, NegInf => true
  | NegZero, NegZero => true
  | NegZero, Fin m => m =? 0
  | Fin n, NegZero => n =? 0
  | Fin n, Fin m => n =? m
  | _, _ => false
  end.

(** [Math.abs] *)
Definition abs (a : number) : number :=
  match a with
  | NaN => NaN
  | PosInf | NegInf => PosInf
  | NegZero => Fin 0
  | Fin n => Fin (Z.abs n)
  end.

(** [Math.min(a, b)]: NaN is contagious and -0 is below +0. *)
Definition min (a b : number) : number :=
  match a, b with
  | NaN, _ | _, NaN => NaN
  | NegZero, Fin 0 | Fin 0, NegZero => NegZero
  | _, _ => if lt b a then b else a
  end.

(** [Math.max(a, b)] *)
Definition max (a b : number) : number :=
  match a, b with
  | NaN, _ | _, NaN => NaN
  | NegZero, Fin 0 | Fin 0, NegZero => Fin 0
  | _, _ => if lt a b then b else a
  end.

(** ToBoolean on a number: the zeros and NaN are falsy. *)
Definition truthy (a : number) : bool :=
  match a with
  | NaN | NegZero | Fin 0 => false
  | _ => true
  end.

(** [a || b] *)
Definition or (a b : number) : number := if truthy a then a else b.

(** The scaled values a binary64 can hold: those rounding leaves alone,
    below the overflow threshold. *)
Definition is_binary64 (n : Z) : bool :=
  (rne n (excess n) * 2 ^ excess n =? n) && (Z.abs n <? overflow).

(** The well-formed finite numbers. *)
Definition finite (a : number) : bool :=
  match a with
  | NegZero => true
  | Fin n => is_binary64 n
  | _ => false
  end.

(** The same set, as multiples of a power of two with at most 53
    significant bits. *)
Definition representable (n : Z) : Prop :=
  exists k, 0 <= k /\ (2 ^ k | n) /\ Z.abs n < 2 ^ (53 + k) /\ Z.abs n < overflow.

(** The scaled real value of a finite number. *)
Definition value (a : number) : Z :=
  match a with
  | Fin n => n
  | _ => 0
  end.

(** Reading of a hardware binary64, for literals such as [1e-20]. *)
Definition of_float (f : float) : number :=
  match Prim2SF f with
  | S754_zero s => if s then NegZero else Fin 0
  | S754_infinity s => if s then NegInf else PosInf
  | S754_nan => NaN
  | S754_finite s m e =>
      let v := Z.pos m * 2 ^ (e + 1074) in
      Fin (if s then - v else v)
  end.

End Num.

Import Num.

(** ** The angle normaliser (lines 47-51) *)

Definition normalizeRotation (value : number) : number :=
  let normalized := rem value (of_Z 360) in
  if lt normalized (of_Z 0) then add normalized (of_Z 360) else normalized.

(** ** Text of the numeric field: [parseInt] *)

(** A JavaScript string is a sequence of UTF-16 code units. *)
Definition text : Type := list N.

(** The code units of an ASCII literal. *)
Definition utf16 (s : string) : text := map N_of_ascii (list_ascii_of_string s).

Module JS.

Local Open Scope N_scope.

(** StrWhiteSpaceChar: white space and line terminators. *)
Definition isStrWhiteSpaceChar (c : N) : bool :=
  existsb (N.eqb c)
    [9; 10; 11; 12; 13; 32; 160; 5760; 8232; 8233; 8239; 8287; 12288; 65279]
  || ((8192 <=? c) && (c <=? 8202)).

Fixpoint trimStart (s : text) : text :=
  match s with
  | c :: s' => if isStrWhiteSpaceChar c then trimStart s' else s
  | [] => []
  end.

(** Value of a code unit read as a digit, letters counting from 10. *)
Definition digitValue (c : N) : option Z :=
  if (48 <=? c) && (c <=? 57) then Some (Z.of_N (c - 48))
  else if (97 <=? c) && (c <=? 122) then Some (Z.of_N (c - 97) + 10)%Z
  else if (65 <=? c) && (c <=? 90) then Some (Z.of_N (c - 65) + 10)%Z
  else None.

Definition radixDigit (R : Z) (c : N) : option Z :=
  match digitValue c with
  | Some d => if (d <? R)%Z then Some d else None
  | None => None
  end.

(** The longest prefix of radix-R digits, as digit values. *)
Fixpoint digits (R : Z) (s : text) : list Z :=
  match s with
  | c :: s' =>
      match radixDigit R c with
      | Some d => d :: digits R s'
      | None => []
      end
  | [] => []
  end.

Definition mathInt (R : Z) (ds : list Z) : Z :=
  fold_left (fun acc d => acc * R + d)%Z ds 0%Z.

(** Whether the text begins with [-]. *)
Definition isNegative (str : text) : bool :=
  match str with
  | c :: _ => c =? 45
  | [] => false
  end.

(** Removal of a leading [+] or [-]. *)
Definition dropSign (str : text) : text :=
  match str with
  | c :: rest => if (c =? 43) || (c =? 45) then rest else str
  | [] => []
  end.

(** Removal of a leading [0x] or [0X], which selects radix 16. *)
Definition stripPrefix (str : text) : Z * text :=
  match str with
  | c0 :: c1 :: rest =>
      if (c0 =? 48) && ((c1 =? 120) || (c1 =? 88)) then (16%Z, rest)
      else (10%Z, str)
  | _ => (10%Z, str)
  end.

(** Whether [stripPrefix] finds its prefix behind white space and sign. *)
Definition hexPrefixed (s : text) : bool :=
  match dropSign (trimStart s) with
  | c0 :: c1 :: _ => (c0 =? 48) && ((c1 =? 120) || (c1 =? 88))
  | _ => false
  end.

(** The steps of [parseInt(string)] (radix undefined) up to the
    mathematical integer: [None] when no digit is found, otherwise the
    sign and the magnitude. *)
Definition parseIntMath (s : text) : option (bool * Z) :=
  let str := trimStart s in
  let neg := isNegative str in
  let str := dropSign str in
  let '(R, str) := stripPrefix str in
  match digits R str with
  | [] => None
  | ds => Some (neg, mathInt R ds)
  end.

(** [parseInt(string)]: NaN without digits, a signed zero, or the number
    value of the signed integer. *)
Definition parseInt (s : text) : number :=
  match parseIntMath s with
  | None => NaN
  | Some (neg, m) =>
      if (m =? 0)%Z then (if neg then NegZero else Fin 0)
      else of_Z (if neg then - m else m)
  end.

End JS.

(** ** The number field (lines 171 and 202: [type='number'])

    Both elements that call [handleInputChange] are inputs of type
    number.  The value of such an input is sanitised (HTML Standard, the
    Number state): a text that is not a valid floating-point number is
    replaced by the empty text.  So [e.target.value] is the typed text
    when that is a valid floating-point number, and empty otherwise. *)

Module NumberField.

Local Open Scope N_scope.

Definition isAsciiDigit (c : N) : bool := (48 <=? c) && (c <=? 57).

Fixpoint skipDigits (s : text) : text :=
  match s with
  | c :: s' => if isAsciiDigit c then skipDigits s' else s
  | [] => []
  end.

Definition startsWithDigit (s : text) : bool :=
  match s with
  | c :: _ => isAsciiDigit c
  | [] => false
  end.

(** One or more digits, up to the end of the text. *)
Definition allDigits (s : text) : bool :=
  startsWithDigit s &&
  match skipDigits s with
  | [] => true
  | _ => false
  end.

(** Nothing, or an exponent: [e] or [E], an optional [-] or [+], and one
    or more digits. *)
Definition validExponent (s : text) : bool :=
  match s with
  | [] => true
  | c :: s' =>
      ((c =? 101) || (c =? 69)) &&
      allDigits
        match s' with
        | d :: r => if (d =? 45) || (d =? 43) then r else s'
        | [] => []
        end
  end.

(** One or more digits, a fraction ([.] and one or more digits), or
    both in that order; then the exponent. *)
Definition validUnsigned (s : text) : bool :=
  match skipDigits s with
  | c :: r =>
      if c =? 46 then startsWithDigit r && validExponent (skipDigits r)
      else startsWithDigit s && validExponent (c :: r)
  | [] => startsWithDigit s
  end.

(** Removal of a leading [-]. *)
Definition dropMinus (s : text) : text :=
  match s with
  | c :: rest => if c =? 45 then rest else s
  | [] => []
  end.

Definition validFloatingPointNumber (s : text) : bool :=
  validUnsigned (dropMinus s).

(** The value sanitization algorithm: what [e.target.value] holds once
    [typed] is in the field. *)
Definition sanitize (typed : text) : text :=
  if validFloatingPointNumber typed then typed else [].

End NumberField.

(** ** The component state and its handlers *)

Module DragStart.
Record t : Type := mk { x : number; y : number; rotation : number }.
End DragStart.

Module Props.
(** [onChange] is the identity of the callback the parent passed. *)
Record t : Type := mk { rotation : number; onChange : nat; showSlider : bool }.
End Props.

(** [MouseEvent], and one entry of [TouchEvent.touches]. *)
Module Pointer.
Record t : Type := mk { clientX : number; clientY : number }.
End Pointer.

(** What one render closes over: its props and the two state cells. *)
Module Scope.
Record t : Type :=
  mk { props : Props.t; isDragging : bool; dragStart : DragStart.t }.
End Scope.

(** What a handler does, in program order. *)
Inductive Action : Type :=
| OnChange (callback : nat) (rotation : number)
| PreventDefault
| SetIsDragging (b : bool)
| SetDragStart (d : DragStart.t).

Section Handlers.

Variable sc : Scope.t.

Let rotation := Props.rotation (Scope.props sc).
Let onChange := OnChange (Props.onChange (Scope.props sc)).
Let isDragging := Scope.isDragging sc.
Let dragStart := Scope.dragStart sc.

Definition handleMouseDown (e : Pointer.t) : list Action :=
  [ SetIsDragging true;
    SetDragStart (DragStart.mk (Pointer.clientX e) (Pointer.clientY e) rotation) ].

Definition handleTouchStart (touches : list Pointer.t) : list Action :=
  if (List.length touches =? 1)%nat then
    match touches with
    | touch :: _ =>
        [ SetIsDragging true;
          SetDragStart
            (DragStart.mk (Pointer.clientX touch) (Pointer.clientY touch) rotation) ]
    | [] => []
    end
  else [].

Definition handleMouseMove (e : Pointer.t) : list Action :=
  if negb isDragging then []
  else
    let deltaX := sub (Pointer.clientX e) (DragStart.x dragStart) in
    let newRotation := normalizeRotation (add (DragStart.rotation dragStart) deltaX) in
    [ onChange newRotation ].

Definition handleTouchMove (touches : list Pointer.t) : list Action :=
  if negb isDragging || negb (List.length touches =? 1)%nat then []
  else
    PreventDefault ::
    match touches with
    | touch :: _ =>
        let deltaX := sub (Pointer.clientX touch) (DragStart.x dragStart) in
        let newRotation :=
          normalizeRotation (add (DragStart.rotation dragStart) deltaX) in
        [ onChange newRotation ]
    | [] => []
    end.

Definition handleMouseUp : list Action := [ SetIsDragging false ].

Definition handleTouchEnd : list Action := [ SetIsDragging false ].

Definition handleKeyDown (key : string) : list Action :=
  if String.eqb key "ArrowLeft" then
    [ PreventDefault; onChange (normalizeRotation (sub rotation (of_Z 15))) ]
  else if String.eqb key "ArrowRight" then
    [ PreventDefault; onChange (normalizeRotation (add rotation (of_Z 15))) ]
  else [].

Definition handleInputChange (targetValue : text) : list Action :=
  let value := or (JS.parseInt targetValue) (of_Z 0) in
  let normalizedValue := max (of_Z 0) (min (of_Z 359) (abs value)) in
  [ onChange normalizedValue ].

(** The slider hands over a number or an array of numbers; the first
    element of an empty array is undefined, which [%] turns into NaN. *)
Definition handleSliderChange (value : number + list number) : list Action :=
  let rotationValue :=
    match value with
    | inl v => v
    | inr vs => nth 0 vs NaN
    end in
  [ onChange (normalizeRotation rotationValue) ].

(** The two [onClick] arrows of the step buttons. *)
Definition clickCounterClockwise : list Action :=
  [ onChange (normalizeRotation (sub rotation (of_Z 15))) ].

Definition clickClockwise : list Action :=
  [ onChange (normalizeRotation (add rotation (of_Z 15))) ].

End Handlers.

(** ** The document, the effect and the event loop (lines 99-115)

    One event is handled to completion: the handlers run, the state
    updates are applied in one batch, the component renders again and
    its effect is flushed before the next event is delivered. *)

Inductive EventType : Type := mousemove | mouseup | touchmove | touchend.

Definition EventType_eqb (a b : EventType) : bool :=
  match a, b with
  | mousemove, mousemove | mouseup, mouseup
  | touchmove, touchmove | touchend, touchend => true
  | _, _ => false
  end.

(** A registered listener: the event type, the identity of the function
    object (the number of the render that created it) and the scope that
    function closes over. *)
Module Listener.
Record t : Type := mk { type : EventType; fn : nat; scope : Scope.t }.
End Listener.

Module World.
Record t : Type := mk {
  mounted : bool;
  props : Props.t;
  isDragging : bool;
  dragStart : DragStart.t;
  (** identity of the [dragStart] object: every [setDragStart] call of
      the source stores a fresh object literal *)
  dragStartRef : nat;
  renders : nat;
  (** the dependency array the effect last ran with *)
  deps : option (bool * nat);
  (** the render whose listeners the pending cleanup removes *)
  cleanup : option nat;
  (** listeners of this component on [document], in registration order *)
  document : list Listener.t }.
End World.

Definition same_listener (ty : EventType) (f : nat) (l : Listener.t) : bool :=
  EventType_eqb ty (Listener.type l) && Nat.eqb f (Listener.fn l).

Definition addEventListener
  (ty : EventType) (f : nat) (sc : Scope.t) (doc : list Listener.t)
  : list Listener.t :=
  if existsb (same_listener ty f) doc then doc
  else doc ++ [ Listener.mk ty f sc ].

Definition removeEventListener
  (ty : EventType) (f : nat) (doc : list Listener.t) : list Listener.t :=
  filter (fun l => negb (same_listener ty f l)) doc.

(** Body of the effect when [isDragging] holds (lines 101-106). *)
Definition attach (f : nat) (sc : Scope.t) (doc : list Listener.t)
  : list Listener.t :=
  addEventListener touchend f sc
    (addEventListener touchmove f sc
       (addEventListener mouseup f sc
          (addEventListener mousemove f sc doc))).

(** The cleanup the effect returns (lines 108-113). *)
Definition detach (f : nat) (doc : list Listener.t) : list Listener.t :=
  removeEventListener touchend f
    (removeEventListener touchmove f
       (removeEventListener mouseup f
          (removeEventListener mousemove f doc))).

Definition scope_of (w : World.t) : Scope.t :=
  Scope.mk (World.props w) (World.isDragging w) (World.dragStart w).

Definition deps_changed (old : option (bool * nat)) (new : bool * nat) : bool :=
  match old with
  | None => true
  | Some (b, r) => negb (Bool.eqb b (fst new) && Nat.eqb r (snd new))
  end.

(** [useEffect(..., [isDragging, dragStart])] after the render numbered [f]. *)
Definition useEffect (f : nat) (w : World.t) : World.t :=
  let new := (World.isDragging w, World.dragStartRef w) in
  if deps_changed (World.deps w) new then
    let doc :=
      match World.cleanup w with
      | Some g => detach g (World.document w)
      | None => World.document w
      end in
    if World.isDragging w then
      World.mk (World.mounted w) (World.props w) (World.isDragging w)
        (World.dragStart w) (World.dragStartRef w) (World.renders w)
        (Some new) (Some f) (attach f (scope_of w) doc)
    else
      World.mk (World.mounted w) (World.props w) (World.isDragging w)
        (World.dragStart w) (World.dragStartRef w) (World.renders w)
        (Some new) None doc
  else w.

Definition render (w : World.t) : World.t :=
  let f := S (World.renders w) in
  useEffect f
    (World.mk (World.mounted w) (World.props w) (World.isDragging w)
       (World.dragStart w) (World.dragStartRef w) f
       (World.deps w) (World.cleanup w) (World.document w)).

Definition mount (p : Props.t) : World.t :=
  render
    (World.mk true p false (DragStart.mk (of_Z 0) (of_Z 0) (of_Z 0)) 0 0
       None None []).

Definition unmount (w : World.t) : World.t :=
  World.mk false (World.props w) (World.isDragging w) (World.dragStart w)
    (World.dragStartRef w) (World.renders w) (World.deps w) None
    match World.cleanup w with
    | Some g => detach g (World.document w)
    | None => World.document w
    end.

Definition setProps (p : Props.t) (w : World.t) : World.t :=
  World.mk (World.mounted w) p (World.isDragging w) (World.dragStart w)
    (World.dragStartRef w) (World.renders w) (World.deps w) (World.cleanup w)
    (World.document w).

Definition isSetState (a : Action) : bool :=
  match a with
  | SetIsDragging _ | SetDragStart _ => true
  | _ => false
  end.

Definition setState (w : World.t) (a : Action) : World.t :=
  match a with
  | SetIsDragging b =>
      World.mk (World.mounted w) (World.props w) b (World.dragStart w)
        (World.dragStartRef w) (World.renders w) (World.deps w)
        (World.cleanup w) (World.document w)
  | SetDragStart d =>
      World.mk (World.mounted w) (World.props w) (World.isDragging w) d
        (S (World.dragStartRef w)) (World.renders w) (World.deps w)
        (World.cleanup w) (World.document w)
  | _ => w
  end.

Inductive Event : Type :=
| MouseDown (e : Pointer.t)
| TouchStart (touches : list Pointer.t)
| KeyDown (key : string)
| ClickCounterClockwise
| ClickClockwise
| InputChange (value : text)
| SliderChange (value : number + list number)
| DocMouseMove (e : Pointer.t)
| DocMouseUp
| DocTouchMove (touches : list Pointer.t)
| DocTouchEnd
| Rerender (p : Props.t)
| Unmount.

(** A document listener called with an event of its type. *)
Definition invoke (ev : Event) (l : Listener.t) : list Action :=
  match Listener.type l, ev with
  | mousemove, DocMouseMove e => handleMouseMove (Listener.scope l) e
  | mouseup, DocMouseUp => handleMouseUp
  | touchmove, DocTouchMove touches => handleTouchMove (Listener.scope l) touches
  | touchend, DocTouchEnd => handleTouchEnd
  | _, _ => []
  end.

(** The handlers an event reaches.  The slider layout (lines 142-178)
    renders the slider and the numeric field; the compact layout (lines
    181-246) renders the two buttons, the numeric field and the circular
    control. *)
Definition dispatch (w : World.t) (ev : Event) : list Action :=
  let sc := scope_of w in
  let compact := negb (Props.showSlider (World.props w)) in
  match ev with
  | MouseDown e => if compact then handleMouseDown sc e else []
  | TouchStart touches => if compact then handleTouchStart sc touches else []
  | KeyDown key => if compact then handleKeyDown sc key else []
  | ClickCounterClockwise => if compact then clickCounterClockwise sc else []
  | ClickClockwise => if compact then clickClockwise sc else []
  | InputChange value => handleInputChange sc value
  | SliderChange value => if compact then [] else handleSliderChange sc value
  | DocMouseMove _ | DocMouseUp | DocTouchMove _ | DocTouchEnd =>
      flat_map (invoke ev) (World.document w)
  | Rerender _ | Unmount => []
  end.

Definition step (w : World.t) (ev : Event) : World.t * list Action :=
  if negb (World.mounted w) then (w, [])
  else
    match ev with
    | Unmount => (unmount w, [])
    | Rerender p => (render (setProps p w), [])
    | _ =>
        let acts := dispatch w ev in
        let w' := fold_left setState acts w in
        (if existsb isSetState acts then render w' else w',
         filter (fun a => negb (isSetState a)) acts)
    end.

Fixpoint run (w : World.t) (evs : list Event) : World.t * list Action :=
  match evs with
  | [] => (w, [])
  | ev :: evs' =>
      let '(w1, out1) := step w ev in
      let '(w2, out2) := run w1 evs' in
      (w2, out1 ++ out2)
  end.

(** The rotations handed to [onChange], in order. *)
Definition reported (acts : list Action) : list number :=
  flat_map (fun a => match a with OnChange _ v => [v] | _ => [] end) acts.

Inductive reachable : World.t -> Prop :=
| reachable_mount : forall p, reachable (mount p)
| reachable_step : forall w ev, reachable w -> reachable (fst (step w ev)).

(** The listeners one run of the effect leaves on the document. *)
Definition attached (f : nat) (sc : Scope.t) : list Listener.t :=
  [ Listener.mk mousemove f sc; Listener.mk mouseup f sc;
    Listener.mk touchmove f sc; Listener.mk touchend f sc ].

(** Events that neither begin nor end a drag. *)
Definition keeps_drag (ev : Event) : bool :=
  match ev with
  | MouseDown _ | TouchStart _ | DocMouseUp | DocTouchEnd | Unmount => false
  | _ => true
  end.

(** Events that do not begin a drag. *)
Definition starts_no_drag (ev : Event) : bool :=
  match ev with
  | MouseDown _ | TouchStart _ => false
  | _ => true
  end.

(** Events whose handlers call no state setter (lines 69-86, 118-139,
    190, 241). *)
Definition only_reports (ev : Event) : bool :=
  match ev with
  | KeyDown _ | ClickCounterClockwise | ClickClockwise | InputChange _
  | SliderChange _ | DocMouseMove _ | DocTouchMove _ => true
  | _ => false
  end.

(** ** Predicates of the statements *)

(** What holds between two events: the effect has run with the current
    dependencies, and the document carries the four listeners of that
    run exactly when a drag is in progress. *)
Definition Inv (w : World.t) : Prop :=
  if World.mounted w then
    World.deps w = Some (World.isDragging w, World.dragStartRef w) /\
    if World.isDragging w then
      exists f p,
        World.cleanup w = Some f /\
        World.document w = attached f (Scope.mk p true (World.dragStart w))
    else World.cleanup w = None /\ World.document w = []
  else World.document w = [].

(** The three shapes of a world between two events. *)
Definition idle (p : Props.t) (ds : DragStart.t) (r n : nat) : World.t :=
  World.mk true p false ds r n (Some (false, r)) None [].

Definition dragging
  (p : Props.t) (ds : DragStart.t) (r n f : nat) (p0 : Props.t) : World.t :=
  World.mk true p true ds r n (Some (true, r)) (Some f)
    (attached f (Scope.mk p0 true ds)).

(** A drag in progress with baseline [ds], whose listeners call [cb]. *)
Definition session (cb : nat) (ds : DragStart.t) (w : World.t) : Prop :=
  exists p r n f p0, w = dragging p ds r n f p0 /\ Props.onChange p0 = cb.

(** No listener, so nothing a document event can reach. *)
Definition quiet (w : World.t) : Prop :=
  World.document w = [] /\ (World.mounted w = true -> World.isDragging w = false).

(** ** The numeric field as the specification words it *)

(** The claim's reading of the field, to compare with [JS.parseInt]:
    the decimal integer the text begins with, behind an optional minus
    sign. *)
Module Claimed.

Local Open Scope N_scope.

Definition isDecimalDigit (c : N) : bool := (48 <=? c) && (c <=? 57).

Fixpoint decimalRun (s : text) : list N :=
  match s with
  | c :: s' => if isDecimalDigit c then c :: decimalRun s' else []
  | [] => []
  end.

Definition decimalValue (ds : list N) : Z :=
  fold_left (fun acc c => acc * 10 + Z.of_N (c - 48))%Z ds 0%Z.

Definition leadingInteger (s : text) : option Z :=
  let negative :=
    match s with
    | c :: _ => c =? 45
    | [] => false
    end in
  let unsigned :=
    match s with
    | c :: rest => if c =? 45 then rest else s
    | [] => []
    end in
  match decimalRun unsigned with
  | [] => None
  | ds => Some (if negative then - decimalValue ds else decimalValue ds)%Z
  end.

(** Absolute value, then the clamp to [0, 359]. *)
Definition clamp (z : Z) : Z := Z.max 0 (Z.min 359 (Z.abs z)).

Definition orZero (o : option Z) : Z :=
  match o with
  | Some z => z
  | None => 0%Z
  end.

End Claimed.

(** ** What the component shows (lines 161, 172, 203, 214) *)

(** [Math.round]: the nearest integral number, a tie going up; an input
    in [-0.5, -0] gives -0. *)
Definition Math_round (a : number) : number :=
  match a with
  | Fin n =>
      let k := (2 * n + U) / (2 * U) in
      if k =? 0 then (if n <? 0 then NegZero else Fin 0) else Fin (k * U)
  | _ => a
  end.

(** The decimal digits of [n], most significant first, before [acc]. *)
Fixpoint decimalDigits (fuel : nat) (n : N) (acc : text) : text :=
  match fuel with
  | O => acc
  | S fuel' =>
      let acc' := (48 + n mod 10)%N :: acc in
      if (n / 10 =? 0)%N then acc' else decimalDigits fuel' (n / 10)%N acc'
  end.

(** [Number::toString] where it is plain: NaN, the infinities, the zeros
    and the whole numbers below 2^53 in magnitude, which print as their
    decimal digits (at most 16); [None] elsewhere (fractions, and the
    larger numbers, whose digits are the shortest that read back). *)
Definition toString (a : number) : option text :=
  match a with
  | NaN => Some (utf16 "NaN")
  | PosInf => Some (utf16 "Infinity")
  | NegInf => Some (utf16 "-Infinity")
  | NegZero => Some (utf16 "0")
  | Fin n =>
      if (n mod U =? 0) && (Z.abs (n / U) <? 2 ^ 53) then
        Some ((if n <? 0 then [45%N] else []) ++
              decimalDigits 16 (Z.to_N (Z.abs (n / U))) [])
      else None
  end.

(** The text of the numeric field: [Math.round(rotation).toString()]. *)
Definition inputText (rotation : number) : option text :=
  toString (Math_round rotation).

(** * Properties *)

(** ** Rounding *)

(** The sums the counterexamples below go through, and a few across the
    range, against the processor's own binary64 addition. *)
Lemma add_agrees_with_hardware :
  let agrees a b := add (of_float a) (of_float b) = of_float (a + b)%float in
  agrees (-0x1.79ca10c924223p-67)%float 360%float /\
  agrees (-0x1p-49)%float 360%float /\
  agrees 0x1.dffffffffffffp+3%float (-15)%float /\
  agrees 0x1.999999999999ap-4%float 360%float /\
  agrees 0x1p+53%float 1%float /\
  agrees 0x1p+53%float 3%float /\
  agrees 0x0.0000000000001p-1022%float 0x0.0000000000003p-1022%float /\
  agrees 0x1.fffffffffffffp+1023%float 0x1p+970%float /\
  agrees 0x1.fffffffffffffp+1023%float 0x1.fffffffffffffp+969%float.
Proof. vm_compute. repeat split; reflexivity. Qed.

Section Rounding.

Lemma pow2_divide_mono (j k n : Z) :
  0 <= j <= k -> (2 ^ k | n) -> (2 ^ j | n).
Proof.
  intros Hjk [q Hq]. exists (q * 2 ^ (k - j)).
  rewrite <- Z.mul_assoc, <- Z.pow_add_r by lia.
  now replace (k - j + j) with k by lia.
Qed.

Lemma rne_exact (n k : Z) : 0 <= k -> (2 ^ k | n) -> rne n k * 2 ^ k = n.
Proof.
  intros Hk Hd. unfold rne.
  assert (Hp : 0 < 2 ^ k) by (apply Z.pow_pos_nonneg; lia).
  assert (Hm : n mod 2 ^ k = 0) by (apply Z.mod_divide; [lia | exact Hd]).
  rewrite Hm. replace (2 * 0 ?= 2 ^ k) with Lt by (symmetry; apply Z.compare_lt_iff; lia).
  destruct Hd as [q ->]. rewrite Z.div_mul by lia. reflexivity.
Qed.

Lemma excess_nonneg (n : Z) : 0 <= excess n.
Proof. unfold excess. lia. Qed.

Lemma excess_le (n k : Z) : 0 <= k -> Z.abs n < 2 ^ (53 + k) -> excess n <= k.
Proof.
  intros Hk Hn. unfold excess.
  destruct (Z.eq_dec n 0) as [-> | Hn0].
  - simpl. lia.
  - assert (Z.log2 (Z.abs n) < 53 + k) by (apply Z.log2_lt_pow2; lia). lia.
Qed.

Lemma round_representable (n : Z) : representable n -> round n = Fin n.
Proof.
  intros (k & Hk & Hd & Hlt & Hov). unfold round.
  rewrite rne_exact.
  - destruct (Z.leb_spec overflow (Z.abs n)); [lia | reflexivity].
  - apply excess_nonneg.
  - apply pow2_divide_mono with k; [|exact Hd].
    split; [apply excess_nonneg | now apply excess_le].
Qed.

Lemma is_binary64_representable (n : Z) :
  is_binary64 n = true -> representable n.
Proof.
  unfold is_binary64. intros H. apply andb_true_iff in H as [He Ho].
  apply Z.eqb_eq in He. apply Z.ltb_lt in Ho.
  exists (excess n). repeat split.
  - apply excess_nonneg.
  - exists (rne n (excess n)). now symmetry.
  - unfold excess. destruct (Z.eq_dec n 0) as [-> | Hn].
    + apply Z.pow_pos_nonneg; simpl; lia.
    + apply Z.log2_lt_pow2; lia.
  - exact Ho.
Qed.

Lemma representable_is_binary64 (n : Z) :
  representable n -> is_binary64 n = true.
Proof.
  intros (k & Hk & Hd & Hlt & Hov). unfold is_binary64.
  rewrite rne_exact.
  - rewrite Z.eqb_refl. cbn [andb]. now apply Z.ltb_lt.
  - apply excess_nonneg.
  - apply pow2_divide_mono with k; [| exact Hd].
    split; [apply excess_nonneg | now apply excess_le].
Qed.

Lemma U_pos : 0 < U.
Proof. unfold U. apply Z.pow_pos_nonneg; lia. Qed.

Lemma representable_of_Z (z : Z) : Z.abs z < 2 ^ 53 -> representable (z * U).
Proof.
  intros Hz. exists 1074. repeat split.
  - lia.
  - exists z. reflexivity.
  - rewrite Z.abs_mul, (Z.abs_eq U) by (pose proof U_pos; lia).
    rewrite Z.pow_add_r by lia. fold U.
    apply Z.mul_lt_mono_pos_r; [apply U_pos | exact Hz].
  - rewrite Z.abs_mul, (Z.abs_eq U) by (pose proof U_pos; lia).
    unfold overflow. change 2098 with (1024 + 1074).
    rewrite Z.pow_add_r by lia. fold U.
    apply Z.mul_lt_mono_pos_r; [apply U_pos |].
    eapply Z.lt_trans; [exact Hz |]. reflexivity.
Qed.

Lemma of_Z_exact (z : Z) : Z.abs z < 2 ^ 53 -> of_Z z = Fin (z * U).
Proof. intros Hz. unfold of_Z. now apply round_representable, representable_of_Z. Qed.

Lemma rne_bounds (n k : Z) :
  0 <= k -> n / 2 ^ k <= rne n k <= n / 2 ^ k + 1.
Proof.
  intros Hk. unfold rne.
  destruct (2 * (n mod 2 ^ k) ?= 2 ^ k); [destruct (Z.even _) | |]; lia.
Qed.

(** Beyond 2^53 the rounded magnitude stays beyond 360. *)
Lemma round_large (n : Z) :
  2 ^ 53 * U <= Z.abs n ->
  round n = PosInf \/ round n = NegInf \/
  exists v, round n = Fin v /\ 360 * U <= Z.abs v.
Proof.
  intros Hn. unfold round.
  destruct (overflow <=? _); [destruct (_ <? 0); auto |].
  right. right. eexists. split; [reflexivity |].
  pose proof U_pos as HU.
  assert (Hpos : 0 < Z.abs n) by nia.
  assert (Hl : 1127 <= Z.log2 (Z.abs n)).
  { apply Z.log2_le_pow2; [exact Hpos |].
    change (2 ^ 1127) with (2 ^ 53 * U). exact Hn. }
  assert (Hk : excess n = Z.log2 (Z.abs n) - 52) by (unfold excess; lia).
  set (k := excess n) in *.
  pose proof (rne_bounds n k ltac:(lia)) as Hb.
  assert (HP : 0 < 2 ^ k) by (apply Z.pow_pos_nonneg; lia).
  assert (Hlo : 4503599627370496 * 2 ^ k <= Z.abs n).
  { change 4503599627370496 with (2 ^ 52). rewrite <- Z.pow_add_r by lia.
    replace (52 + k) with (Z.log2 (Z.abs n)) by lia.
    now apply Z.log2_spec. }
  assert (HPk : 2 * U <= 2 ^ k).
  { change (2 * U) with (2 ^ 1075). apply Z.pow_le_mono_r; lia. }
  pose proof (Z.div_mod n (2 ^ k) ltac:(lia)) as Hdm.
  pose proof (Z.mod_pos_bound n (2 ^ k) HP) as Hmb.
  clear Hn Hl Hk.
  generalize dependent (rne n k). intros t. intros.
  generalize dependent (n mod 2 ^ k). intros m. intros.
  generalize dependent (n / 2 ^ k). intros q. intros.
  generalize dependent (2 ^ k). intros P. intros.
  destruct (Z.abs_spec n) as [[Hs Ha] | [Hs Ha]]; rewrite Ha in *.
  - assert (Hq : 4503599627370496 <= q).
    { destruct (Z.le_gt_cases 4503599627370496 q) as [Hq | Hq]; [exact Hq |].
      assert (P * q <= P * 4503599627370495)
        by (apply Z.mul_le_mono_nonneg_l; lia).
      lia. }
    assert (P * 4503599627370496 <= P * t)
      by (apply Z.mul_le_mono_nonneg_l; lia).
    rewrite Z.abs_eq by (apply Z.mul_nonneg_nonneg; lia). lia.
  - assert (Hq : q <= - 4503599627370496).
    { destruct (Z.le_gt_cases q (- 4503599627370496)) as [Hq | Hq]; [exact Hq |].
      assert (P * (- 4503599627370495) <= P * q)
        by (apply Z.mul_le_mono_nonneg_l; lia).
      lia. }
    assert (P * t <= P * (- 4503599627370495))
      by (apply Z.mul_le_mono_nonneg_l; lia).
    rewrite Z.abs_neq by (rewrite Z.mul_comm; lia). lia.
Qed.

End Rounding.

(** ** The normaliser on finite numbers *)

Section Normaliser.

(** 360.0 in scaled form. *)
Let c : Z := 360 * U.

Lemma c_pos : 0 < c.
Proof. unfold c. pose proof U_pos. lia. Qed.

Lemma c_pow2 : c = 45 * 2 ^ 1077.
Proof. change (2 ^ 1077) with (8 * U). unfold c. ring. Qed.

Lemma of_Z_360 : of_Z 360 = Fin c.
Proof. apply of_Z_exact. reflexivity. Qed.

Lemma of_Z_0 : of_Z 0 = Fin 0.
Proof. apply (of_Z_exact 0). reflexivity. Qed.

Lemma rem_Fin (n d : Z) :
  d <> 0 ->
  rem (Fin n) (Fin d) =
  if Z.rem n d =? 0 then (if n <? 0 then NegZero else Fin 0) else Fin (Z.rem n d).
Proof. intros Hd. destruct d; [contradiction | reflexivity | reflexivity]. Qed.

Lemma rem_NegZero (d : Z) : d <> 0 -> rem NegZero (Fin d) = NegZero.
Proof. intros Hd. destruct d; [contradiction | reflexivity | reflexivity]. Qed.

Lemma normalizeRotation_NegZero : normalizeRotation NegZero = NegZero.
Proof.
  unfold normalizeRotation. rewrite of_Z_360, of_Z_0.
  rewrite rem_NegZero by (pose proof c_pos; lia). reflexivity.
Qed.

(** The source's two branches, on the scaled value. *)
Lemma normalizeRotation_Fin (n : Z) :
  normalizeRotation (Fin n) =
  if Z.rem n c =? 0 then (if n <? 0 then NegZero else Fin 0)
  else if Z.rem n c <? 0 then round (Z.rem n c + c)
  else Fin (Z.rem n c).
Proof.
  unfold normalizeRotation. rewrite of_Z_360, of_Z_0.
  rewrite rem_Fin by (pose proof c_pos; lia).
  destruct (Z.rem n c =? 0) eqn:E0.
  - destruct (n <? 0); reflexivity.
  - cbn [lt add]. destruct (Z.rem n c <? 0); reflexivity.
Qed.

(** The same in terms of the mathematical residue [n mod 360]. *)
Lemma normalizeRotation_mod (n : Z) :
  normalizeRotation (Fin n) =
  if n mod c =? 0 then (if n <? 0 then NegZero else Fin 0)
  else if n <? 0 then round (n mod c)
  else Fin (n mod c).
Proof.
  rewrite normalizeRotation_Fin. pose proof c_pos as Hc.
  destruct (Z.ltb_spec n 0) as [Hn | Hn].
  - assert (Hr : Z.rem n c = - ((- n) mod c)).
    { replace n with (- - n) at 1 by lia.
      rewrite Z.rem_opp_l by lia. rewrite Z.rem_mod_nonneg by lia. reflexivity. }
    pose proof (Z.mod_pos_bound (- n) c Hc) as Hb.
    destruct (Z.eq_dec ((- n) mod c) 0) as [Hz | Hz].
    + assert (n mod c = 0).
      { apply Z.mod_divide; [lia |]. apply Z.divide_opp_r.
        apply Z.mod_divide; [lia | exact Hz]. }
      rewrite Hr, Hz, H. reflexivity.
    + assert (Hm : n mod c = c - (- n) mod c).
      { replace n with (- - n) at 1 by lia. apply Z.mod_opp_l_nz; lia. }
      rewrite Hr, Hm.
      destruct (Z.eqb_spec (- ((- n) mod c)) 0); [lia |].
      destruct (Z.eqb_spec (c - (- n) mod c) 0); [lia |].
      destruct (Z.ltb_spec (- ((- n) mod c)) 0); [| lia].
      f_equal. lia.
  - rewrite Z.rem_mod_nonneg by lia.
    pose proof (Z.mod_pos_bound n c Hc) as Hb.
    destruct (n mod c =? 0); [reflexivity |].
    destruct (Z.ltb_spec (n mod c) 0); [lia | reflexivity].
Qed.

(** The remainder of a binary64 by 360 is a binary64. *)
Lemma mod_representable (n : Z) :
  0 <= n -> representable n -> representable (n mod c).
Proof.
  intros Hn (k & Hk & Hd & Hlt & Hov). pose proof c_pos as Hc.
  pose proof (Z.mod_pos_bound n c Hc) as Hb.
  assert (Hle : n mod c <= n) by (apply Z.mod_le; lia).
  exists (Z.min k 1077). repeat split.
  - lia.
  - rewrite Z.mod_eq by lia. apply Z.divide_sub_r.
    + apply pow2_divide_mono with k; [lia | exact Hd].
    + apply Z.divide_mul_l. rewrite c_pow2. apply Z.divide_mul_r.
      apply pow2_divide_mono with 1077; [lia | apply Z.divide_refl].
  - rewrite Z.abs_eq by lia.
    destruct (Z.min_spec k 1077) as [[_ ->] | [_ ->]].
    + rewrite Z.abs_eq in Hlt by lia. lia.
    + rewrite Z.pow_add_r by lia.
      assert (HP : 0 < 2 ^ 1077) by (apply Z.pow_pos_nonneg; lia).
      assert (HQ : 45 < 2 ^ 53) by reflexivity.
      rewrite c_pow2 in Hb |- *.
      generalize dependent (2 ^ 1077). generalize dependent (2 ^ 53).
      intros. nia.
  - rewrite Z.abs_eq in * by lia. lia.
Qed.

(** *** Whole degrees *)

Lemma add_of_Z (a b : Z) :
  Z.abs a < 2 ^ 53 -> Z.abs b < 2 ^ 53 -> Z.abs (a + b) < 2 ^ 53 ->
  add (of_Z a) (of_Z b) = of_Z (a + b).
Proof.
  intros Ha Hb Hab. rewrite !of_Z_exact by assumption. cbn [add].
  replace (a * U + b * U) with ((a + b) * U) by ring.
  now apply round_representable, representable_of_Z.
Qed.

Lemma opp_Fin (v : Z) : v <> 0 -> opp (Fin v) = Fin (- v).
Proof. destruct v; [contradiction | reflexivity | reflexivity]. Qed.

Lemma sub_of_Z (a b : Z) :
  Z.abs a < 2 ^ 53 -> Z.abs b < 2 ^ 53 -> Z.abs (a - b) < 2 ^ 53 ->
  sub (of_Z a) (of_Z b) = of_Z (a - b).
Proof.
  intros Ha Hb Hab. unfold sub. rewrite !of_Z_exact by assumption.
  pose proof U_pos as HU.
  destruct (Z.eq_dec b 0) as [-> | Hb0].
  - cbn [Z.mul opp add]. f_equal. ring.
  - rewrite opp_Fin by nia. cbn [add].
    replace (a * U + - (b * U)) with ((a - b) * U) by ring.
    now apply round_representable, representable_of_Z.
Qed.

(** On whole degrees the normaliser is the mathematical residue; a
    negative multiple of 360 yields -0. *)
Lemma normalizeRotation_of_Z (z : Z) :
  Z.abs z < 2 ^ 53 ->
  normalizeRotation (of_Z z) =
  if (z <? 0) && (z mod 360 =? 0) then NegZero else of_Z (z mod 360).
Proof.
  intros Hz. pose proof U_pos as HU.
  rewrite (of_Z_exact z) by exact Hz. rewrite normalizeRotation_mod.
  unfold c. rewrite Z.mul_mod_distr_r by lia.
  pose proof (Z.mod_pos_bound z 360 ltac:(lia)) as Hb.
  replace (z * U <? 0) with (z <? 0)
    by (destruct (Z.ltb_spec z 0), (Z.ltb_spec (z * U) 0); auto; nia).
  replace (z mod 360 * U =? 0) with (z mod 360 =? 0)
    by (destruct (Z.eqb_spec (z mod 360) 0), (Z.eqb_spec (z mod 360 * U) 0);
        auto; nia).
  destruct (Z.eqb_spec (z mod 360) 0) as [E | E].
  - destruct (z <? 0); cbn [andb]; [reflexivity |].
    rewrite E. symmetry. apply of_Z_0.
  - rewrite andb_false_r. destruct (z <? 0); [reflexivity |].
    symmetry. apply of_Z_exact.
    assert (360 < 2 ^ 53) by reflexivity. lia.
Qed.

(** *** The range *)

Lemma c_lt_overflow : c < overflow.
Proof.
  unfold c. change overflow with (2 ^ 1024 * U).
  apply Z.mul_lt_mono_pos_r; [apply U_pos | reflexivity].
Qed.

(** The rounded sum of line 50 never exceeds 360, but can reach it. *)
Lemma round_below_turn (r : Z) :
  0 < r < c -> exists v, round r = Fin v /\ 0 <= v <= c.
Proof.
  intros [Hr0 Hrc]. unfold round.
  assert (Hk0 : 0 <= excess r) by apply excess_nonneg.
  assert (Hk : excess r <= 1030).
  { apply excess_le; [lia |]. rewrite Z.abs_eq by lia.
    eapply Z.lt_trans; [exact Hrc |].
    change (2 ^ (53 + 1030)) with (512 * U). unfold c.
    pose proof U_pos. lia. }
  set (k := excess r) in *.
  assert (HP : 0 < 2 ^ k) by (apply Z.pow_pos_nonneg; lia).
  assert (Hc : c = 45 * 2 ^ (1077 - k) * 2 ^ k).
  { rewrite <- Z.mul_assoc, <- Z.pow_add_r by lia.
    replace (1077 - k + k) with 1077 by lia. apply c_pow2. }
  assert (HC : 0 < 2 ^ (1077 - k)) by (apply Z.pow_pos_nonneg; lia).
  pose proof (rne_bounds r k Hk0) as Hb.
  pose proof (Z.div_mod r (2 ^ k) ltac:(lia)) as Hdm.
  pose proof (Z.mod_pos_bound r (2 ^ k) HP) as Hmb.
  pose proof c_lt_overflow as Hov.
  assert (Ht : 0 <= rne r k * 2 ^ k <= c).
  { rewrite Hc in Hrc |- *.
    generalize dependent (rne r k). intros t. intros.
    generalize dependent (r / 2 ^ k). intros q. intros.
    generalize dependent (r mod 2 ^ k). intros m. intros.
    generalize dependent (2 ^ (1077 - k)). intros C. intros.
    generalize dependent (2 ^ k). intros P. intros.
    assert (0 <= q) by nia. assert (q < 45 * C) by nia. nia. }
  exists (rne r k * 2 ^ k). split; [| exact Ht].
  destruct (Z.leb_spec overflow (Z.abs (rne r k * 2 ^ k))); [lia | reflexivity].
Qed.

Lemma strictEq_round_refl (n : Z) : strictEq (round n) (round n) = true.
Proof.
  unfold round. destruct (overflow <=? _).
  - destruct (_ <? 0); reflexivity.
  - cbn. apply Z.eqb_refl.
Qed.

End Normaliser.

(** ** The claims about the normaliser *)

Lemma normalizeRotation_cases (x : number) :
  finite x = true ->
  let r := value x mod (360 * U) in
  let nx := normalizeRotation x in
  (r = 0 /\ (nx = NegZero \/ nx = Fin 0)) \/
  (r <> 0 /\ 0 <= value x /\ nx = Fin r /\ round r = Fin r) \/
  (r <> 0 /\ value x < 0 /\ nx = round r).
Proof.
  destruct x as [| | | | n]; try discriminate; intros Hx; cbn [value].
  - left. rewrite normalizeRotation_NegZero. rewrite Z.mod_0_l; auto.
    pose proof U_pos; lia.
  - cbn [finite] in Hx. apply is_binary64_representable in Hx.
    rewrite normalizeRotation_mod.
    destruct (Z.eqb_spec (n mod (360 * U)) 0) as [E | E].
    + left. split; [exact E |]. destruct (n <? 0); auto.
    + right. destruct (Z.ltb_spec n 0) as [Hn | Hn].
      * right. auto.
      * left. repeat split; auto.
        apply round_representable. now apply mod_representable.
Qed.

(** What holds of the range on every finite input: the result is never
    below 0 and never above 360. *)
Lemma normalizeRotation_range_closed (x : number) :
  finite x = true ->
  lt (normalizeRotation x) (of_Z 0) = false /\
  lt (of_Z 360) (normalizeRotation x) = false.
Proof.
  intros Hx. pose proof (normalizeRotation_cases x Hx) as C. cbv zeta in C.
  pose proof U_pos as HU. rewrite of_Z_0, of_Z_360.
  pose proof (Z.mod_pos_bound (value x) (360 * U) ltac:(lia)) as Hb.
  destruct C as [[_ [-> | ->]] | [(Hr & _ & -> & _) | (Hr & _ & ->)]]; cbn [lt].
  - split; apply Z.ltb_ge; lia.
  - split; apply Z.ltb_ge; lia.
  - split; apply Z.ltb_ge; lia.
  - destruct (round_below_turn (value x mod (360 * U))) as (v & -> & Hv);
      [lia |].
    cbn [lt]. split; apply Z.ltb_ge; lia.
Qed.

(** On the inputs that are not negative the result stays below 360. *)
Lemma normalizeRotation_range_nonneg (x : number) :
  finite x = true -> lt x (of_Z 0) = false ->
  lt (normalizeRotation x) (of_Z 360) = true.
Proof.
  intros Hx Hn. pose proof (normalizeRotation_cases x Hx) as C. cbv zeta in C.
  pose proof U_pos as HU. rewrite of_Z_0 in Hn. rewrite of_Z_360.
  pose proof (Z.mod_pos_bound (value x) (360 * U) ltac:(lia)) as Hb.
  destruct C as [[_ [-> | ->]] | [(Hr & _ & -> & _) | (Hr & Hneg & _)]]; cbn [lt].
  - apply Z.ltb_lt. lia.
  - apply Z.ltb_lt. lia.
  - apply Z.ltb_lt. lia.
  - destruct x as [| | | | n]; try discriminate Hx.
    + cbn in Hneg. lia.
    + cbn in Hn, Hneg. apply Z.ltb_ge in Hn. lia.
Qed.

(** Two finite numbers whose values differ by exactly 360 * k normalise
    to equal numbers ([===], which identifies the two zeros). *)
Lemma normalizeRotation_congruent (x y : number) (k : Z) :
  finite x = true -> finite y = true ->
  value y = value x + 360 * U * k ->
  strictEq (normalizeRotation x) (normalizeRotation y) = true.
Proof.
  intros Hx Hy Hv.
  pose proof (normalizeRotation_cases x Hx) as Cx.
  pose proof (normalizeRotation_cases y Hy) as Cy.
  cbv zeta in Cx, Cy.
  assert (Hr : value y mod (360 * U) = value x mod (360 * U)).
  { rewrite Hv. replace (360 * U * k) with (k * (360 * U)) by ring.
    apply Z.mod_add. pose proof U_pos; lia. }
  rewrite Hr in Cy.
  destruct Cx as [[Zx Ex] | [(Nx & Px & Ex & Rx) | (Nx & Px & Ex)]];
    destruct Cy as [[Zy Ey] | [(Ny & Py & Ey & Ry) | (Ny & Py & Ey)]];
    try contradiction.
  - destruct Ex as [-> | ->], Ey as [-> | ->]; reflexivity.
  - rewrite Ex, Ey. cbn. apply Z.eqb_refl.
  - rewrite Ex, Ey, Rx. cbn. apply Z.eqb_refl.
  - rewrite Ex, Ey, Ry. cbn. apply Z.eqb_refl.
  - rewrite Ex, Ey. apply strictEq_round_refl.
Qed.

(** The sum [x + 360 * k] where it is exact: the number of that value. *)
Lemma add_turns_exact (x : number) (k : Z) :
  finite x = true -> Z.abs (360 * k) < 2 ^ 53 ->
  is_binary64 (value x + 360 * k * U) = true ->
  add x (of_Z (360 * k)) = Fin (value x + 360 * k * U).
Proof.
  intros Hx Hk Hs. rewrite (of_Z_exact (360 * k)) by exact Hk.
  destruct x as [| | | | n]; try discriminate Hx; cbn [add value].
  - reflexivity.
  - now apply round_representable, is_binary64_representable.
Qed.

(** C5 as stated: for every finite x and every integer k the normaliser
    gives the same on x and on the sum x + 360 * k.  At x = 0.1 and k = 1
    the sum is rounded to the binary64 nearest to 360.1, and the
    normaliser gives 0.1 on the one and 0.10000000000002274 on the
    other. *)
Lemma normalizeRotation_periodic_counterexample :
  ~ (forall (x : number) (k : Z),
        finite x = true -> Z.abs (360 * k) < 2 ^ 53 ->
        strictEq (normalizeRotation x)
          (normalizeRotation (add x (of_Z (360 * k)))) = true).
Proof.
  intros H.
  specialize (H (of_float 0x1.999999999999ap-4%float) 1 eq_refl eq_refl).
  vm_compute in H. discriminate H.
Qed.

(** C5, amended: the normaliser has period 360 where the shift by
    360 * k is exact.  For a finite x, every finite number whose value is
    that of x plus 360 * k normalises to the same number as x ([===],
    which identifies the two zeros); and when the real sum x + 360 * k
    is a binary64, so that the sum the program computes is not rounded,
    the normaliser gives the same on x and on [x + 360 * k]. *)
Theorem normalizeRotation_periodic (x : number) (k : Z) :
  finite x = true ->
  (forall y : number,
      finite y = true -> value y = value x + 360 * U * k ->
      strictEq (normalizeRotation x) (normalizeRotation y) = true) /\
  (Z.abs (360 * k) < 2 ^ 53 ->
   is_binary64 (value x + 360 * k * U) = true ->
   strictEq (normalizeRotation x)
     (normalizeRotation (add x (of_Z (360 * k)))) = true).
Proof.
  intros Hx. split.
  - intros y Hy Hv. now apply normalizeRotation_congruent with k.
  - intros Hk Hs. rewrite add_turns_exact by assumption.
    apply normalizeRotation_congruent with k; [exact Hx | exact Hs |].
    cbn [value]. ring.
Qed.

Lemma normalizeRotation_periodic_witness :
  strictEq (normalizeRotation (of_Z (-370)))
    (normalizeRotation (add (of_Z (-370)) (of_Z (360 * 2)))) = true.
Proof.
  destruct (normalizeRotation_periodic (of_Z (-370)) 2) as [_ H].
  - vm_compute; reflexivity.
  - apply H; vm_compute; reflexivity.
Defined.

(** C1 (fails on the code): a negative input of tiny magnitude, here
    -1e-20, is sent to 360 itself, outside [0, 360): the sum
    [normalized + 360] of line 50 is rounded to the nearest binary64,
    which is 360.  The counter-clockwise button reaches it from the
    rotation 14.999999999999998. *)
Theorem normalizeRotation_tiny_negative :
  let x := of_float (-0x1.79ca10c924223p-67)%float in
  let rotation := of_float 0x1.dffffffffffffp+3%float in
  finite x = true /\
  lt x (of_Z 0) = true /\
  normalizeRotation x = of_Z 360 /\
  lt (normalizeRotation x) (of_Z 360) = false /\
  finite rotation = true /\
  reported (snd (step (mount (Props.mk rotation 0 false)) ClickCounterClockwise))
  = [ of_Z 360 ].
Proof. vm_compute. repeat split; reflexivity. Qed.

(** C6: the four sample values of the normaliser: -10 gives 350, 370 gives
    10, and both 0 and 360 give 0. *)
Theorem normalizeRotation_samples :
  normalizeRotation (of_Z (-10)) = of_Z 350 /\
  normalizeRotation (of_Z 370) = of_Z 10 /\
  normalizeRotation (of_Z 0) = of_Z 0 /\
  normalizeRotation (of_Z 360) = of_Z 0.
Proof.
  rewrite !normalizeRotation_of_Z by reflexivity.
  split; [reflexivity |]. split; [reflexivity |]. split; reflexivity.
Qed.

(** ** The listener lifecycle *)

Section Lifecycle.

Local Opaque normalizeRotation of_Z add sub JS.parseInt max min abs or.

Lemma attach_nil (f : nat) (sc : Scope.t) : attach f sc [] = attached f sc.
Proof. reflexivity. Qed.

Lemma detach_attached (f : nat) (sc : Scope.t) : detach f (attached f sc) = [].
Proof.
  unfold detach, attached, removeEventListener, same_listener.
  cbn. rewrite Nat.eqb_refl. cbn. rewrite Nat.eqb_refl. cbn.
  rewrite Nat.eqb_refl. cbn. rewrite Nat.eqb_refl. reflexivity.
Qed.

Lemma deps_changed_same (b : bool) (r : nat) :
  deps_changed (Some (b, r)) (b, r) = false.
Proof. cbn. rewrite Bool.eqb_reflx, Nat.eqb_refl. reflexivity. Qed.

Lemma deps_changed_fresh (b b' : bool) (r : nat) :
  deps_changed (Some (b, r)) (b', S r) = true.
Proof.
  cbn. replace (Nat.eqb r (S r)) with false.
  - now rewrite andb_false_r.
  - symmetry. apply Nat.eqb_neq. lia.
Qed.

Lemma Inv_mount (p : Props.t) : Inv (mount p).
Proof. cbn. auto. Qed.

Lemma eqb_succ_r (r : nat) : Nat.eqb r (S r) = false.
Proof. apply Nat.eqb_neq. lia. Qed.

Lemma invoke_attached (ev : Event) (f : nat) (sc : Scope.t) :
  flat_map (invoke ev) (attached f sc) =
  match ev with
  | DocMouseMove e => handleMouseMove sc e
  | DocMouseUp => handleMouseUp
  | DocTouchMove touches => handleTouchMove sc touches
  | DocTouchEnd => handleTouchEnd
  | _ => []
  end.
Proof. destruct ev; cbn; rewrite ?app_nil_r; reflexivity. Qed.

Ltac crunch :=
  repeat progress
    (cbn -[attached detach];
     try unfold render, setProps, useEffect, unmount, scope_of;
     rewrite ?Nat.eqb_refl, ?eqb_succ_r, ?detach_attached, ?invoke_attached).

Ltac split_event ev :=
  destruct ev as
    [e | touches | key | | | value | value | e | | touches | | p' | ];
  try (destruct touches as [| touch [| touch' touches]]);
  unfold step, dispatch; crunch;
  unfold handleTouchStart, handleTouchMove, handleKeyDown; crunch;
  repeat match goal with
         | |- context [String.eqb ?a ?b] => destruct (String.eqb a b)
         end;
  crunch.

Lemma Inv_step (w : World.t) (ev : Event) : Inv w -> Inv (fst (step w ev)).
Proof.
  destruct w as [m [rot cb [|]] d ds r n dp cl doc]; unfold Inv at 1;
    cbn [World.mounted World.isDragging World.deps World.dragStartRef
         World.cleanup World.document World.dragStart];
    (destruct m; [| intros ->; reflexivity]);
    intros [-> H]; destruct d.
  1, 3: destruct H as (f & p0 & -> & ->); split_event ev; eauto;
    (split; [reflexivity | eexists _, _; split; reflexivity]).
  all: destruct H as [-> ->]; split_event ev; eauto;
    (split; [reflexivity | eexists _, _; split; reflexivity]).
Qed.

Lemma reachable_Inv (w : World.t) : reachable w -> Inv w.
Proof.
  induction 1 as [p | w ev _ IH]; [apply Inv_mount | now apply Inv_step].
Qed.

Lemma Inv_cases (w : World.t) :
  Inv w ->
  (World.mounted w = false /\ World.document w = []) \/
  (exists p ds r n, w = idle p ds r n) \/
  (exists p ds r n f p0, w = dragging p ds r n f p0).
Proof.
  destruct w as [m p d ds r n dp cl doc]. unfold Inv. cbn.
  destruct m; [| auto]. intros [-> H]. right. destruct d.
  - destruct H as (f & p0 & -> & ->). right. now exists p, ds, r, n, f, p0.
  - destruct H as [-> ->]. left. now exists p, ds, r, n.
Qed.

Lemma session_mouse_down (w : World.t) (e : Pointer.t) :
  Inv w -> World.mounted w = true ->
  Props.showSlider (World.props w) = false ->
  session (Props.onChange (World.props w))
    (DragStart.mk (Pointer.clientX e) (Pointer.clientY e)
       (Props.rotation (World.props w)))
    (fst (step w (MouseDown e))).
Proof.
  intros HI Hm Hs.
  destruct (Inv_cases w HI) as [[Hu _] | [(p & ds & r & n & ->) | (p & ds & r & n & f & p0 & ->)]].
  - congruence.
  - destruct p as [rot cb ss]. cbn in Hs. subst ss.
    unfold step, dispatch. crunch. unfold session, dragging.
    eexists _, _, _, _, _. split; reflexivity.
  - destruct p as [rot cb ss]. cbn in Hs. subst ss.
    unfold step, dispatch. crunch. unfold session, dragging.
    eexists _, _, _, _, _. split; reflexivity.
Qed.

Lemma session_touch_start (w : World.t) (touch : Pointer.t) :
  Inv w -> World.mounted w = true ->
  Props.showSlider (World.props w) = false ->
  session (Props.onChange (World.props w))
    (DragStart.mk (Pointer.clientX touch) (Pointer.clientY touch)
       (Props.rotation (World.props w)))
    (fst (step w (TouchStart [touch]))).
Proof.
  intros HI Hm Hs.
  destruct (Inv_cases w HI) as [[Hu _] | [(p & ds & r & n & ->) | (p & ds & r & n & f & p0 & ->)]].
  - congruence.
  - destruct p as [rot cb ss]. cbn in Hs. subst ss.
    unfold step, dispatch, handleTouchStart. crunch. unfold session, dragging.
    eexists _, _, _, _, _. split; reflexivity.
  - destruct p as [rot cb ss]. cbn in Hs. subst ss.
    unfold step, dispatch, handleTouchStart. crunch. unfold session, dragging.
    eexists _, _, _, _, _. split; reflexivity.
Qed.

Lemma session_keep (cb : nat) (ds : DragStart.t) (w : World.t) (ev : Event) :
  session cb ds w -> keeps_drag ev = true -> session cb ds (fst (step w ev)).
Proof.
  intros (p & r & n & f & p0 & -> & Hcb) Hk. destruct p as [rot c ss].
  destruct ss; split_event ev; try discriminate Hk;
    unfold session, dragging; eexists _, _, _, _, _; split; eauto; reflexivity.
Qed.

Lemma session_run (cb : nat) (ds : DragStart.t) (evs : list Event) :
  forall w, session cb ds w -> forallb keeps_drag evs = true ->
            session cb ds (fst (run w evs)).
Proof.
  induction evs as [| ev evs IH]; intros w Hs Hk; [exact Hs |].
  cbn in Hk. apply andb_true_iff in Hk as [Hk1 Hk2].
  cbn [run]. destruct (step w ev) as [w1 out1] eqn:E1.
  specialize (IH w1). destruct (run w1 evs) as [w2 out2]. cbn [fst] in *.
  apply IH; [| exact Hk2].
  replace w1 with (fst (step w ev)) by now rewrite E1.
  now apply session_keep.
Qed.

Lemma session_mouse_move (cb : nat) (ds : DragStart.t) (w : World.t) (e : Pointer.t) :
  session cb ds w ->
  snd (step w (DocMouseMove e)) =
  [ OnChange cb
      (normalizeRotation
         (add (DragStart.rotation ds) (sub (Pointer.clientX e) (DragStart.x ds)))) ].
Proof.
  intros (p & r & n & f & p0 & -> & <-). unfold step, dispatch. crunch.
  reflexivity.
Qed.

Lemma session_touch_move (cb : nat) (ds : DragStart.t) (w : World.t) (touch : Pointer.t) :
  session cb ds w ->
  snd (step w (DocTouchMove [touch])) =
  [ PreventDefault;
    OnChange cb
      (normalizeRotation
         (add (DragStart.rotation ds)
            (sub (Pointer.clientX touch) (DragStart.x ds)))) ].
Proof.
  intros (p & r & n & f & p0 & -> & <-). unfold step, dispatch. crunch.
  reflexivity.
Qed.

Lemma quiet_exit (w : World.t) (ev : Event) :
  Inv w -> ev = DocMouseUp \/ ev = DocTouchEnd \/ ev = Unmount ->
  quiet (fst (step w ev)).
Proof.
  intros HI Hev.
  destruct (Inv_cases w HI) as [[Hu Hd] | [(p & ds & r & n & ->) | (p & ds & r & n & f & p0 & ->)]].
  - unfold step. rewrite Hu. cbn. split; [exact Hd | congruence].
  - destruct Hev as [-> | [-> | ->]]; unfold step, dispatch; crunch;
      split; auto; discriminate.
  - destruct Hev as [-> | [-> | ->]]; unfold step, dispatch; crunch;
      split; auto; discriminate.
Qed.

Lemma quiet_keep (w : World.t) (ev : Event) :
  Inv w -> quiet w -> starts_no_drag ev = true -> quiet (fst (step w ev)).
Proof.
  intros HI [Hq1 Hq2] Hev.
  destruct (Inv_cases w HI) as [[Hu Hd] | [(p & ds & r & n & ->) | (p & ds & r & n & f & p0 & ->)]].
  - unfold step. rewrite Hu. cbn. split; [exact Hd | congruence].
  - destruct p as [rot c ss].
    destruct ss; split_event ev; try discriminate Hev;
      split; auto; discriminate.
  - specialize (Hq2 eq_refl). discriminate.
Qed.

Lemma quiet_run (evs : list Event) :
  forall w, Inv w -> quiet w -> forallb starts_no_drag evs = true ->
            Inv (fst (run w evs)) /\ quiet (fst (run w evs)).
Proof.
  induction evs as [| ev evs IH]; intros w HI Hq Hk; [now split |].
  cbn in Hk. apply andb_true_iff in Hk as [Hk1 Hk2].
  cbn [run]. destruct (step w ev) as [w1 out1] eqn:E1.
  specialize (IH w1). destruct (run w1 evs) as [w2 out2]. cbn [fst] in *.
  assert (E : w1 = fst (step w ev)) by now rewrite E1.
  apply IH; [| | exact Hk2]; rewrite E.
  - now apply Inv_step.
  - now apply quiet_keep.
Qed.

Lemma quiet_silent (w : World.t) (ev : Event) :
  quiet w ->
  match ev with
  | DocMouseMove _ | DocTouchMove _ => snd (step w ev) = []
  | _ => True
  end.
Proof.
  intros [Hd _]. destruct w as [m p d ds r n dp cl doc]. cbn in Hd. subst doc.
  destruct ev; auto; unfold step, dispatch; destruct m; reflexivity.
Qed.

(** ** The claims about the gestures and the step controls *)

(** C2: during a drag, begun by a pointer-down or a single touch on the
    circular control, every pointer-move and every single-touch move
    reports [normalizeRotation (baselineRotation + horizontalDisplacement)],
    the displacement being the current clientX minus the clientX recorded
    at the start; from rotation 100, a displacement of 30 reports 130. *)
Theorem drag_reports_baseline_plus_displacement
  (w : World.t) (start e : Pointer.t) (evs : list Event) :
  reachable w ->
  World.mounted w = true ->
  Props.showSlider (World.props w) = false ->
  forallb keeps_drag evs = true ->
  let baselineRotation := Props.rotation (World.props w) in
  let horizontalDisplacement := sub (Pointer.clientX e) (Pointer.clientX start) in
  let newRotation := normalizeRotation (add baselineRotation horizontalDisplacement) in
  (forall w1,
      w1 = fst (step w (MouseDown start)) \/ w1 = fst (step w (TouchStart [start])) ->
      let w2 := fst (run w1 evs) in
      reported (snd (step w2 (DocMouseMove e))) = [ newRotation ] /\
      reported (snd (step w2 (DocTouchMove [e]))) = [ newRotation ]) /\
  (baselineRotation = of_Z 100 -> horizontalDisplacement = of_Z 30 ->
   newRotation = of_Z 130).
Proof.
  intros Hr Hm Hs Hk. cbv zeta. split.
  - intros w1 Hw1.
    assert (S1 : session (Props.onChange (World.props w))
                   (DragStart.mk (Pointer.clientX start) (Pointer.clientY start)
                      (Props.rotation (World.props w))) w1).
    { apply reachable_Inv in Hr. destruct Hw1 as [-> | ->].
      - now apply session_mouse_down.
      - now apply session_touch_start. }
    pose proof (session_run _ _ evs w1 S1 Hk) as S2.
    rewrite (session_mouse_move _ _ _ e S2), (session_touch_move _ _ _ e S2).
    split; reflexivity.
  - intros -> ->.
    rewrite add_of_Z, normalizeRotation_of_Z by reflexivity. reflexivity.
Qed.

Lemma drag_reports_baseline_plus_displacement_witness :
  let w := mount (Props.mk (of_Z 100) 0 false) in
  let start := Pointer.mk (of_Z 200) (of_Z 50) in
  let e := Pointer.mk (of_Z 230) (of_Z 80) in
  let evs := [ DocMouseMove (Pointer.mk (of_Z 215) (of_Z 60));
               Rerender (Props.mk (of_Z 115) 1 false) ] in
  reported (snd (step (fst (run (fst (step w (MouseDown start))) evs))
                   (DocMouseMove e))) = [ of_Z 130 ].
Proof.
  intros w start e evs.
  destruct (drag_reports_baseline_plus_displacement w start e evs) as [H1 H2].
  - apply reachable_mount.
  - reflexivity.
  - reflexivity.
  - reflexivity.
  - destruct (H1 (fst (step w (MouseDown start)))) as [H _].
    + left. reflexivity.
    + rewrite H, H2; [reflexivity | reflexivity |].
      apply sub_of_Z; reflexivity.
Defined.

(** C4: the clockwise button and the right arrow report
    [normalizeRotation (r + 15)], the counter-clockwise button and the left
    arrow report [normalizeRotation (r - 15)], the arrows after a call to
    preventDefault; 350 steps up to 5 and 5 steps down to 350. *)
Theorem step_controls_report_fifteen (w : World.t) :
  World.mounted w = true ->
  Props.showSlider (World.props w) = false ->
  let r := Props.rotation (World.props w) in
  reported (snd (step w ClickClockwise)) = [ normalizeRotation (add r (of_Z 15)) ] /\
  reported (snd (step w (KeyDown "ArrowRight"))) =
    [ normalizeRotation (add r (of_Z 15)) ] /\
  reported (snd (step w ClickCounterClockwise)) =
    [ normalizeRotation (sub r (of_Z 15)) ] /\
  reported (snd (step w (KeyDown "ArrowLeft"))) =
    [ normalizeRotation (sub r (of_Z 15)) ] /\
  hd_error (snd (step w (KeyDown "ArrowRight"))) = Some PreventDefault /\
  hd_error (snd (step w (KeyDown "ArrowLeft"))) = Some PreventDefault /\
  normalizeRotation (add (of_Z 350) (of_Z 15)) = of_Z 5 /\
  normalizeRotation (sub (of_Z 5) (of_Z 15)) = of_Z 350.
Proof.
  destruct w as [m [rot cb ss] d ds r n dp cl doc]. cbn. intros -> ->.
  do 6 (split; [reflexivity |]).
  rewrite add_of_Z, sub_of_Z, !normalizeRotation_of_Z by reflexivity.
  split; reflexivity.
Qed.

Lemma step_controls_report_fifteen_witness :
  reported (snd (step (mount (Props.mk (of_Z 350) 0 false)) ClickClockwise))
  = [ of_Z 5 ].
Proof.
  destruct (step_controls_report_fifteen (mount (Props.mk (of_Z 350) 0 false)))
    as (H & _ & _ & _ & _ & _ & H5 & _).
  - reflexivity.
  - reflexivity.
  - rewrite H.
    change (Props.rotation (World.props (mount (Props.mk (of_Z 350) 0 false))))
      with (of_Z 350).
    rewrite H5. reflexivity.
Defined.

(** C7: a touch-move with a number of touches other than one calls
    nothing, and a single-touch move during a drag calls preventDefault
    before it reports; a touch-start with a number of touches other than
    one changes nothing. *)
Theorem touch_move_single_finger_only (w : World.t) (touches : list Pointer.t) :
  reachable w ->
  (List.length touches <> 1%nat -> snd (step w (DocTouchMove touches)) = []) /\
  (List.length touches <> 1%nat -> step w (TouchStart touches) = (w, [])) /\
  (forall touch,
      touches = [touch] ->
      World.mounted w = true -> World.isDragging w = true ->
      exists cb,
        snd (step w (DocTouchMove touches)) =
        [ PreventDefault;
          OnChange cb
            (normalizeRotation
               (add (DragStart.rotation (World.dragStart w))
                  (sub (Pointer.clientX touch) (DragStart.x (World.dragStart w))))) ]).
Proof.
  intros Hr. apply reachable_Inv in Hr.
  assert (Hstart : List.length touches <> 1%nat ->
                   step w (TouchStart touches) = (w, [])).
  { intros Hl. unfold step, dispatch, handleTouchStart.
    destruct (World.mounted w); [| reflexivity]. cbn [negb].
    destruct (negb (Props.showSlider (World.props w))); [| reflexivity].
    destruct touches as [| t [| t' ts]]; [reflexivity | | reflexivity].
    now contradiction Hl. }
  destruct (Inv_cases w Hr) as [[Hu Hd] | [(p & ds & r & n & ->) | (p & ds & r & n & f & p0 & ->)]].
  - split; [| split; [exact Hstart |]].
    + intros _. unfold step. rewrite Hu. reflexivity.
    + intros touch _ Hm. congruence.
  - split; [| split; [exact Hstart |]].
    + intros _. reflexivity.
    + intros touch _ _ Hd. discriminate Hd.
  - split; [| split; [exact Hstart |]].
    + intros Hl. unfold step, dispatch. crunch. unfold handleTouchMove. crunch.
      destruct touches as [| t [| t' ts]]; [reflexivity | | reflexivity].
      now contradiction Hl.
    + intros touch -> _ _. exists (Props.onChange p0).
      unfold step, dispatch. crunch. reflexivity.
Qed.

Lemma touch_move_single_finger_only_witness :
  let w := fst (step (mount (Props.mk (of_Z 100) 0 false))
                  (TouchStart [ Pointer.mk (of_Z 200) (of_Z 50) ])) in
  snd (step w (DocTouchMove [ Pointer.mk (of_Z 210) (of_Z 0);
                              Pointer.mk (of_Z 300) (of_Z 0) ])) = [].
Proof.
  intros w.
  apply (touch_move_single_finger_only w).
  - apply reachable_step, reachable_mount.
  - cbn. lia.
Defined.

(** C8: the document carries the component's move/end listeners exactly
    while a drag is in progress; pointer-up, touch-end and teardown each
    leave none behind; and after such an exit no pointer-move or
    touch-move calls anything until a new drag begins. *)
Theorem listeners_attached_exactly_while_dragging (w : World.t) :
  reachable w ->
  (World.mounted w && World.isDragging w = true ->
   exists f sc, World.document w = attached f sc) /\
  (World.mounted w && World.isDragging w = false -> World.document w = []) /\
  (forall ev,
      ev = DocMouseUp \/ ev = DocTouchEnd \/ ev = Unmount ->
      World.document (fst (step w ev)) = [] /\
      forall evs move,
        forallb starts_no_drag evs = true ->
        let w' := fst (run (fst (step w ev)) evs) in
        snd (step w' (DocMouseMove move)) = [] /\
        snd (step w' (DocTouchMove [move])) = []).
Proof.
  intros Hr. apply reachable_Inv in Hr. split; [| split].
  - destruct (Inv_cases w Hr) as [[Hu Hd] | [(p & ds & r & n & ->) | (p & ds & r & n & f & p0 & ->)]].
    + rewrite Hu. discriminate.
    + discriminate.
    + intros _. eexists _, _. reflexivity.
  - destruct (Inv_cases w Hr) as [[Hu Hd] | [(p & ds & r & n & ->) | (p & ds & r & n & f & p0 & ->)]].
    + auto.
    + auto.
    + discriminate.
  - intros ev Hev. pose proof (quiet_exit w ev Hr Hev) as Hq. split.
    + apply Hq.
    + intros evs move Hk.
      destruct (quiet_run evs (fst (step w ev))) as [_ Hq']; auto.
      * now apply Inv_step.
      * split.
        -- apply (quiet_silent _ (DocMouseMove move) Hq').
        -- apply (quiet_silent _ (DocTouchMove [move]) Hq').
Qed.

Lemma listeners_attached_exactly_while_dragging_witness :
  let w := fst (step (mount (Props.mk (of_Z 100) 0 false))
                  (MouseDown (Pointer.mk (of_Z 200) (of_Z 50)))) in
  World.document (fst (step w DocMouseUp)) = [].
Proof.
  intros w.
  destruct (listeners_attached_exactly_while_dragging w) as (_ & _ & H).
  - apply reachable_step, reachable_mount.
  - destruct (H DocMouseUp) as [Hd _].
    + left. reflexivity.
    + exact Hd.
Defined.

(** C9: the reports of a drag do not depend on vertical movement: two
    moves with the same clientX call the same thing whatever their
    clientY, and two drags that differ only in the clientY recorded at the
    start report the same rotations. *)
Theorem drag_ignores_vertical_movement
  (w : World.t) (e1 e2 start1 start2 : Pointer.t) (evs : list Event) :
  reachable w ->
  Pointer.clientX e1 = Pointer.clientX e2 ->
  Pointer.clientX start1 = Pointer.clientX start2 ->
  forallb keeps_drag evs = true ->
  snd (step w (DocMouseMove e1)) = snd (step w (DocMouseMove e2)) /\
  snd (step w (DocTouchMove [e1])) = snd (step w (DocTouchMove [e2])) /\
  (World.mounted w = true -> Props.showSlider (World.props w) = false ->
   let w1 := fst (run (fst (step w (MouseDown start1))) evs) in
   let w2 := fst (run (fst (step w (MouseDown start2))) evs) in
   let t1 := fst (run (fst (step w (TouchStart [start1]))) evs) in
   let t2 := fst (run (fst (step w (TouchStart [start2]))) evs) in
   snd (step w1 (DocMouseMove e1)) = snd (step w2 (DocMouseMove e2)) /\
   snd (step t1 (DocTouchMove [e1])) = snd (step t2 (DocTouchMove [e2]))).
Proof.
  intros Hr He Hst Hk. apply reachable_Inv in Hr.
  split; [| split; [| intros H H0; cbv zeta; split]].
  - destruct (Inv_cases w Hr) as [[Hu Hd] | [(p & ds & r & n & ->) | (p & ds & r & n & f & p0 & ->)]].
    + unfold step. rewrite Hu. cbn [negb snd]. reflexivity.
    + unfold step, dispatch. crunch. reflexivity.
    + unfold step, dispatch. crunch. now rewrite He.
  - destruct (Inv_cases w Hr) as [[Hu Hd] | [(p & ds & r & n & ->) | (p & ds & r & n & f & p0 & ->)]].
    + unfold step. rewrite Hu. cbn [negb snd]. reflexivity.
    + unfold step, dispatch. crunch. reflexivity.
    + unfold step, dispatch. crunch. now rewrite He.
  - pose proof (session_mouse_down w start1 Hr H H0) as S1.
    pose proof (session_mouse_down w start2 Hr H H0) as S2.
    apply (fun s => session_run _ _ evs _ s Hk) in S1, S2.
    rewrite (session_mouse_move _ _ _ e1 S1), (session_mouse_move _ _ _ e2 S2).
    cbn [DragStart.x DragStart.rotation]. now rewrite He, Hst.
  - pose proof (session_touch_start w start1 Hr H H0) as S1.
    pose proof (session_touch_start w start2 Hr H H0) as S2.
    apply (fun s => session_run _ _ evs _ s Hk) in S1, S2.
    rewrite (session_touch_move _ _ _ e1 S1), (session_touch_move _ _ _ e2 S2).
    cbn [DragStart.x DragStart.rotation]. now rewrite He, Hst.
Qed.

Lemma drag_ignores_vertical_movement_witness :
  let w := fst (step (mount (Props.mk (of_Z 100) 0 false))
                  (MouseDown (Pointer.mk (of_Z 200) (of_Z 50)))) in
  snd (step w (DocMouseMove (Pointer.mk (of_Z 230) (of_Z 0)))) =
  snd (step w (DocMouseMove (Pointer.mk (of_Z 230) (of_Z 999)))).
Proof.
  intros w.
  destruct (drag_ignores_vertical_movement w
              (Pointer.mk (of_Z 230) (of_Z 0)) (Pointer.mk (of_Z 230) (of_Z 999))
              (Pointer.mk (of_Z 1) (of_Z 2)) (Pointer.mk (of_Z 1) (of_Z 3)) [])
    as [H _].
  - apply reachable_step, reachable_mount.
  - reflexivity.
  - reflexivity.
  - reflexivity.
  - exact H.
Defined.

(** ** Further properties of the event loop *)

Lemma reachable_run (evs : list Event) :
  forall w, reachable w -> reachable (fst (run w evs)).
Proof.
  induction evs as [| ev evs IH]; intros w Hr; [exact Hr |].
  cbn [run]. destruct (step w ev) as [w1 out1] eqn:E1.
  specialize (IH w1). destruct (run w1 evs) as [w2 out2]. cbn [fst] in *.
  apply IH. replace w1 with (fst (step w ev)) by now rewrite E1.
  now apply reachable_step.
Qed.

(** X7: whatever the history, one event makes the component call
    [onChange] at most once: listeners of earlier drags never pile up. *)
Theorem one_report_per_event (w : World.t) (ev : Event) :
  reachable w -> (List.length (reported (snd (step w ev))) <= 1)%nat.
Proof.
  intros Hr. apply reachable_Inv in Hr.
  destruct (Inv_cases w Hr) as [[Hu Hd] | [(p & ds & r & n & ->) | (p & ds & r & n & f & p0 & ->)]].
  - unfold step. rewrite Hu. cbn. lia.
  - destruct p as [rot cb [|]]; split_event ev; cbn; lia.
  - destruct p as [rot cb [|]]; split_event ev; cbn; lia.
Qed.

Lemma one_report_per_event_witness :
  let w := fst (run (mount (Props.mk (of_Z 100) 0 false))
                  [ MouseDown (Pointer.mk (of_Z 1) (of_Z 1));
                    MouseDown (Pointer.mk (of_Z 2) (of_Z 2));
                    TouchStart [ Pointer.mk (of_Z 3) (of_Z 3) ] ]) in
  (List.length (reported (snd (step w (DocMouseMove (Pointer.mk (of_Z 9) (of_Z 9))))))
   <= 1)%nat.
Proof.
  intros w. apply (one_report_per_event w).
  apply reachable_run, reachable_mount.
Defined.

(** X8: the handlers that report (keys, buttons, numeric field, slider,
    pointer-move, touch-move) leave the component as it was: the rotation
    shown changes only when the parent passes a new one. *)
Theorem reporting_events_leave_the_state (w : World.t) (ev : Event) :
  reachable w -> only_reports ev = true -> fst (step w ev) = w.
Proof.
  intros Hr Hev. apply reachable_Inv in Hr.
  destruct (Inv_cases w Hr) as [[Hu Hd] | [(p & ds & r & n & ->) | (p & ds & r & n & f & p0 & ->)]].
  - unfold step. rewrite Hu. reflexivity.
  - destruct p as [rot cb [|]]; split_event ev; try discriminate Hev;
      reflexivity.
  - destruct p as [rot cb [|]]; split_event ev; try discriminate Hev;
      reflexivity.
Qed.

Lemma reporting_events_leave_the_state_witness :
  let w := fst (step (mount (Props.mk (of_Z 100) 0 false))
                  (MouseDown (Pointer.mk (of_Z 200) (of_Z 50)))) in
  fst (step w (DocMouseMove (Pointer.mk (of_Z 230) (of_Z 0)))) = w.
Proof.
  intros w. apply (reporting_events_leave_the_state w).
  - apply reachable_step, reachable_mount.
  - reflexivity.
Defined.

(** X9: the listeners of a drag call the [onChange] the component held
    when the drag began, whatever callback later renders pass, while the
    buttons call the current one; a render during a drag leaves the
    document's listeners as they are. *)
Theorem drag_calls_the_callback_of_its_start
  (w : World.t) (start e : Pointer.t) (evs : list Event) :
  reachable w ->
  World.mounted w = true ->
  Props.showSlider (World.props w) = false ->
  forallb keeps_drag evs = true ->
  let w2 := fst (run (fst (step w (MouseDown start))) evs) in
  (exists v,
      snd (step w2 (DocMouseMove e)) =
      [ OnChange (Props.onChange (World.props w)) v ]) /\
  (Props.showSlider (World.props w2) = false ->
   exists v,
     snd (step w2 ClickClockwise) =
     [ OnChange (Props.onChange (World.props w2)) v ]) /\
  (forall p, World.document (fst (step w2 (Rerender p))) = World.document w2).
Proof.
  intros Hr Hm Hs Hk w2. apply reachable_Inv in Hr.
  pose proof (session_mouse_down w start Hr Hm Hs) as S1.
  pose proof (session_run _ _ evs _ S1 Hk) as S2. fold w2 in S2.
  split; [| split].
  - rewrite (session_mouse_move _ _ _ e S2). eauto.
  - destruct S2 as (p & r & n & f & p0 & -> & _).
    destruct p as [rot cb ss]. cbn [World.props dragging Props.showSlider].
    intros ->. eexists. unfold step, dispatch. crunch. reflexivity.
  - intros p'. destruct S2 as (p & r & n & f & p0 & -> & _).
    unfold step. crunch. reflexivity.
Qed.

Lemma drag_calls_the_callback_of_its_start_witness :
  let w := mount (Props.mk (of_Z 100) 0 false) in
  let start := Pointer.mk (of_Z 200) (of_Z 50) in
  let w2 := fst (run (fst (step w (MouseDown start)))
                   [ Rerender (Props.mk (of_Z 100) 7 false) ]) in
  exists v,
    snd (step w2 (DocMouseMove (Pointer.mk (of_Z 230) (of_Z 0)))) =
    [ OnChange 0 v ].
Proof.
  intros w start w2.
  destruct (drag_calls_the_callback_of_its_start w start
              (Pointer.mk (of_Z 230) (of_Z 0))
              [ Rerender (Props.mk (of_Z 100) 7 false) ]) as [H _].
  - apply reachable_mount.
  - reflexivity.
  - reflexivity.
  - reflexivity.
  - exact H.
Defined.

(** X10: from a whole rotation, a drag over whole pixel coordinates
    reports exactly the residue of baseline plus displacement modulo 360
    (-0 when that sum is a negative multiple of 360). *)
Theorem drag_over_whole_pixels_is_exact
  (w : World.t) (start e : Pointer.t) (evs : list Event) (r0 x0 x1 : Z) :
  reachable w ->
  World.mounted w = true ->
  Props.showSlider (World.props w) = false ->
  forallb keeps_drag evs = true ->
  Props.rotation (World.props w) = of_Z r0 ->
  Pointer.clientX start = of_Z x0 ->
  Pointer.clientX e = of_Z x1 ->
  Z.abs r0 < 2 ^ 51 -> Z.abs x0 < 2 ^ 51 -> Z.abs x1 < 2 ^ 51 ->
  let w2 := fst (run (fst (step w (MouseDown start))) evs) in
  let t := r0 + (x1 - x0) in
  reported (snd (step w2 (DocMouseMove e))) =
  [ if (t <? 0) && (t mod 360 =? 0) then NegZero else of_Z (t mod 360) ].
Proof.
  intros Hr Hm Hs Hk Hrot Hx0 Hx1 B0 B1 B2 w2 t. apply reachable_Inv in Hr.
  pose proof (session_mouse_down w start Hr Hm Hs) as S1.
  pose proof (session_run _ _ evs _ S1 Hk) as S2. fold w2 in S2.
  rewrite (session_mouse_move _ _ _ e S2).
  cbn [reported flat_map app DragStart.rotation DragStart.x].
  rewrite Hrot, Hx0, Hx1.
  assert (E51 : 2 ^ 51 = 2251799813685248) by reflexivity.
  assert (E53 : 2 ^ 53 = 9007199254740992) by reflexivity.
  rewrite E51 in *.
  rewrite sub_of_Z by (rewrite E53; lia).
  rewrite add_of_Z by (rewrite E53; lia).
  rewrite normalizeRotation_of_Z by (rewrite E53; subst t; lia).
  reflexivity.
Qed.

Lemma drag_over_whole_pixels_is_exact_witness :
  let w := mount (Props.mk (of_Z 0) 0 false) in
  let w2 := fst (run (fst (step w (MouseDown (Pointer.mk (of_Z 400) (of_Z 50))))) []) in
  reported (snd (step w2 (DocMouseMove (Pointer.mk (of_Z 40) (of_Z 0))))) =
  [ NegZero ].
Proof.
  intros w w2.
  apply (drag_over_whole_pixels_is_exact w (Pointer.mk (of_Z 400) (of_Z 50))
           (Pointer.mk (of_Z 40) (of_Z 0)) [] 0 400 40);
    try reflexivity.
  apply reachable_mount.
Defined.

End Lifecycle.

(** ** The numeric field *)

Section NumericField.

Lemma min_Fin (a b : Z) : min (Fin a) (Fin b) = if b <? a then Fin b else Fin a.
Proof. destruct a, b; reflexivity. Qed.

Lemma max_Fin (a b : Z) : max (Fin a) (Fin b) = if a <? b then Fin b else Fin a.
Proof. destruct a, b; reflexivity. Qed.

Lemma min_Fin_PosInf (a : Z) : min (Fin a) PosInf = Fin a.
Proof. destruct a; reflexivity. Qed.

Lemma or_Fin (v : Z) (b : number) : v <> 0 -> or (Fin v) b = Fin v.
Proof. destruct v; [contradiction | reflexivity | reflexivity]. Qed.

Lemma mathInt_nonneg (R : Z) (ds : list Z) :
  0 <= R -> Forall (fun d => 0 <= d) ds -> 0 <= JS.mathInt R ds.
Proof.
  intros HR. unfold JS.mathInt.
  assert (G : forall acc, 0 <= acc -> Forall (fun d => 0 <= d) ds ->
               0 <= fold_left (fun acc d => acc * R + d) ds acc).
  { induction ds as [| d ds IH]; intros acc Ha Hf; [exact Ha |].
    inversion Hf; subst. cbn. apply IH; [nia | assumption]. }
  apply G. lia.
Qed.

Lemma digitValue_nonneg (c : N) (d : Z) : JS.digitValue c = Some d -> 0 <= d.
Proof.
  unfold JS.digitValue.
  destruct (_ && _); [intros [= <-]; lia |].
  destruct (_ && _); [intros [= <-]; lia |].
  destruct (_ && _); [intros [= <-]; lia | discriminate].
Qed.

Lemma digits_nonneg (R : Z) (s : text) : Forall (fun d => 0 <= d) (JS.digits R s).
Proof.
  induction s as [| c s IH]; cbn; [constructor |].
  unfold JS.radixDigit. destruct (JS.digitValue c) as [d |] eqn:E; [| constructor].
  destruct (d <? R); [| constructor].
  constructor; [now apply digitValue_nonneg with c | exact IH].
Qed.

Lemma stripPrefix_radix (str : text) :
  fst (JS.stripPrefix str) = 10 \/ fst (JS.stripPrefix str) = 16.
Proof.
  destruct str as [| c0 [| c1 rest]]; cbn; auto.
  destruct (_ && _); cbn; auto.
Qed.

Lemma parseIntMath_nonneg (s : text) (neg : bool) (m : Z) :
  JS.parseIntMath s = Some (neg, m) -> 0 <= m.
Proof.
  unfold JS.parseIntMath.
  pose proof (stripPrefix_radix (JS.dropSign (JS.trimStart s))) as HR.
  destruct (JS.stripPrefix _) as [R t]. cbn [fst] in HR.
  pose proof (digits_nonneg R t) as Hf.
  destruct (JS.digits R t) as [| d ds]; [discriminate |].
  intros [= _ <-]. apply mathInt_nonneg; [lia | exact Hf].
Qed.

Lemma of_Z_359 : of_Z 359 = Fin (359 * U).
Proof. apply of_Z_exact. reflexivity. Qed.

(** The value the field hands to [onChange], from what [parseInt] read. *)
Lemma input_value (neg : bool) (m : Z) :
  0 <= m ->
  max (of_Z 0)
    (min (of_Z 359)
       (abs (or (if m =? 0 then (if neg then NegZero else Fin 0)
                 else of_Z (if neg then - m else m))
               (of_Z 0)))) =
  of_Z (Z.max 0 (Z.min 359 m)).
Proof.
  intros Hm. pose proof U_pos as HU.
  rewrite of_Z_0, of_Z_359.
  destruct (Z.eqb_spec m 0) as [-> | Hm0].
  - replace (abs (or (if neg then NegZero else Fin 0) (Fin 0))) with (Fin 0)
      by (destruct neg; reflexivity).
    rewrite min_Fin. destruct (Z.ltb_spec 0 (359 * U)); [| lia].
    rewrite max_Fin. cbn. symmetry. apply of_Z_0.
  - set (z := if neg then - m else m).
    assert (Hz : Z.abs z = m) by (subst z; destruct neg; lia).
    destruct (Z.lt_ge_cases m (2 ^ 53)) as [Hs | Hl].
    + rewrite (of_Z_exact z) by lia.
      rewrite or_Fin by nia. cbn [abs].
      rewrite Z.abs_mul, Hz, (Z.abs_eq U) by lia.
      rewrite min_Fin, (of_Z_exact (Z.max 0 (Z.min 359 m))) by lia.
      destruct (Z.ltb_spec (m * U) (359 * U)).
      * rewrite max_Fin. destruct (Z.ltb_spec 0 (m * U)); [| nia].
        f_equal. f_equal. nia.
      * rewrite max_Fin. destruct (Z.ltb_spec 0 (359 * U)); [| nia].
        f_equal. f_equal. nia.
    + assert (Hr : of_Z (Z.max 0 (Z.min 359 m)) = Fin (359 * U)).
      { replace (Z.max 0 (Z.min 359 m)) with 359; [apply of_Z_359 |].
        assert (359 < 2 ^ 53) by reflexivity. lia. }
      rewrite Hr. unfold of_Z.
      destruct (round_large (z * U)) as [E | [E | (v & E & Hv)]].
      * rewrite Z.abs_mul, Hz, (Z.abs_eq U) by lia. nia.
      * rewrite E. cbn [or truthy abs]. rewrite min_Fin_PosInf, max_Fin.
        destruct (Z.ltb_spec 0 (359 * U)); [reflexivity | lia].
      * rewrite E. cbn [or truthy abs]. rewrite min_Fin_PosInf, max_Fin.
        destruct (Z.ltb_spec 0 (359 * U)); [reflexivity | lia].
      * rewrite E. rewrite or_Fin by lia. cbn [abs]. rewrite min_Fin.
        destruct (Z.ltb_spec (Z.abs v) (359 * U)); [lia |].
        rewrite max_Fin.
        destruct (Z.ltb_spec 0 (359 * U)); [reflexivity | lia].
Qed.

(** What [handleInputChange] reports, from the integer [parseInt] read. *)
Lemma handleInputChange_parsed (sc : Scope.t) (targetValue : text) :
  handleInputChange sc targetValue =
  [ OnChange (Props.onChange (Scope.props sc))
      (of_Z (Claimed.clamp
               (match JS.parseIntMath targetValue with
                | Some (neg, m) => if neg then - m else m
                | None => 0
                end))) ].
Proof.
  unfold handleInputChange, JS.parseInt, Claimed.clamp.
  destruct (JS.parseIntMath targetValue) as [[neg m] |] eqn:E.
  - pose proof (parseIntMath_nonneg _ _ _ E) as Hm.
    rewrite input_value by exact Hm.
    replace (Z.abs (if neg then - m else m)) with m by (destruct neg; lia).
    reflexivity.
  - change (Z.max 0 (Z.min 359 (Z.abs 0))) with 0.
    rewrite of_Z_0, of_Z_359. cbn [or truthy abs Z.abs].
    rewrite min_Fin. pose proof U_pos.
    destruct (Z.ltb_spec 0 (359 * U)); [| lia].
    rewrite max_Fin. reflexivity.
Qed.

Lemma round_not_NaN (n : Z) : round n <> NaN.
Proof.
  unfold round. destruct (overflow <=? _); [destruct (_ <? 0) |]; discriminate.
Qed.

Lemma parseInt_NaN (s : text) : JS.parseInt s = NaN <-> JS.parseIntMath s = None.
Proof.
  unfold JS.parseInt. destruct (JS.parseIntMath s) as [[neg m] |].
  - split; [| discriminate].
    destruct (m =? 0); [destruct neg; discriminate |].
    intros H. now apply round_not_NaN in H.
  - split; reflexivity.
Qed.

Lemma step_InputChange (w : World.t) (targetValue : text) :
  World.mounted w = true ->
  snd (step w (InputChange targetValue)) =
  handleInputChange (scope_of w) targetValue.
Proof.
  destruct w as [m p d ds r n dp cl doc]. cbn [World.mounted]. intros ->.
  reflexivity.
Qed.

Lemma radixDigit_decimal (c : N) :
  JS.radixDigit 10 c =
  if Claimed.isDecimalDigit c then Some (Z.of_N (c - 48)) else None.
Proof.
  unfold JS.radixDigit, JS.digitValue, Claimed.isDecimalDigit.
  repeat match goal with
         | |- context [N.leb ?a ?b] => destruct (N.leb_spec a b)
         end;
    cbn [andb];
    repeat match goal with
           | |- context [Z.ltb ?a ?b] => destruct (Z.ltb_spec a b)
           end;
    try reflexivity; lia.
Qed.

Lemma digits_decimal (s : text) :
  JS.digits 10 s = map (fun c => Z.of_N (c - 48)) (Claimed.decimalRun s).
Proof.
  induction s as [| c s IH]; [reflexivity |].
  cbn [JS.digits Claimed.decimalRun]. rewrite radixDigit_decimal.
  destruct (Claimed.isDecimalDigit c); [| reflexivity].
  cbn [map]. now rewrite IH.
Qed.

Lemma mathInt_decimal (ds : list N) :
  JS.mathInt 10 (map (fun c => Z.of_N (c - 48)) ds) = Claimed.decimalValue ds.
Proof.
  unfold JS.mathInt, Claimed.decimalValue. generalize 0.
  induction ds as [| d ds IH]; intros acc; [reflexivity |].
  cbn [map fold_left]. apply IH.
Qed.

(** Away from the hexadecimal prefix, [parseInt] reads the decimal
    integer the text begins with. *)
Lemma parseIntMath_decimal (s : text) :
  JS.hexPrefixed s = false ->
  JS.parseIntMath s =
  match Claimed.decimalRun (JS.dropSign (JS.trimStart s)) with
  | [] => None
  | ds => Some (JS.isNegative (JS.trimStart s), Claimed.decimalValue ds)
  end.
Proof.
  unfold JS.hexPrefixed, JS.parseIntMath. intros Hh.
  assert (Hs : JS.stripPrefix (JS.dropSign (JS.trimStart s)) =
               (10, JS.dropSign (JS.trimStart s))).
  { unfold JS.stripPrefix.
    destruct (JS.dropSign (JS.trimStart s)) as [| c0 [| c1 rest]]; try reflexivity.
    now rewrite Hh. }
  rewrite Hs, digits_decimal.
  destruct (Claimed.decimalRun _) as [| d ds] eqn:E; [reflexivity |].
  rewrite <- E at 2. now rewrite <- mathInt_decimal, E.
Qed.

(** C3: the field parses its text with [parseInt], takes 0 when that
    yields NaN, then the absolute value, then the clamp to [0, 359];
    typing -20 reports 20, where the wrapping paths give 340. *)
Theorem input_change_reflects_then_clamps (w : World.t) (targetValue : text) :
  World.mounted w = true ->
  let parsed :=
    match JS.parseIntMath targetValue with
    | Some (neg, m) => if neg then - m else m
    | None => 0
    end in
  let normalizedValue := Z.max 0 (Z.min 359 (Z.abs parsed)) in
  reported (snd (step w (InputChange targetValue))) = [ of_Z normalizedValue ] /\
  0 <= normalizedValue <= 359 /\
  (JS.parseInt targetValue = NaN ->
   reported (snd (step w (InputChange targetValue))) = [ of_Z 0 ]) /\
  reported (snd (step w (InputChange (utf16 "-20")))) = [ of_Z 20 ] /\
  normalizeRotation (of_Z (-20)) = of_Z 340.
Proof.
  intros Hm. cbv zeta.
  rewrite !step_InputChange, !handleInputChange_parsed by exact Hm.
  unfold Claimed.clamp. cbn [reported flat_map app].
  split; [reflexivity |]. split; [lia |]. split; [| split].
  - intros HN. apply parseInt_NaN in HN. rewrite HN. reflexivity.
  - reflexivity.
  - rewrite normalizeRotation_of_Z by reflexivity. reflexivity.
Qed.

Lemma input_change_reflects_then_clamps_witness :
  reported (snd (step (mount (Props.mk (of_Z 100) 0 true))
                   (InputChange (utf16 "-20")))) = [ of_Z 20 ].
Proof.
  destruct (input_change_reflects_then_clamps
              (mount (Props.mk (of_Z 100) 0 true)) (utf16 "-20"))
    as (_ & _ & _ & H & _).
  - reflexivity.
  - exact H.
Defined.

Lemma digit_is_no_white_space (c : N) :
  Claimed.isDecimalDigit c = true -> JS.isStrWhiteSpaceChar c = false.
Proof.
  unfold Claimed.isDecimalDigit, JS.isStrWhiteSpaceChar. intros H.
  apply andb_true_iff in H as [H1 H2].
  apply N.leb_le in H1. apply N.leb_le in H2. cbn [existsb].
  repeat match goal with
         | |- context [N.eqb ?a ?b] => destruct (N.eqb_spec a b); [lia |]
         end.
  cbn [orb]. destruct (N.leb_spec 8192 c); [lia | reflexivity].
Qed.

Lemma digit_is_no_sign (c : N) :
  Claimed.isDecimalDigit c = true -> (c =? 43)%N = false /\ (c =? 45)%N = false.
Proof.
  unfold Claimed.isDecimalDigit. intros H.
  apply andb_true_iff in H as [H1 H2].
  apply N.leb_le in H1. apply N.leb_le in H2.
  split; apply N.eqb_neq; lia.
Qed.

(** *** What the number field delivers *)

Lemma validUnsigned_head (s : text) :
  NumberField.validUnsigned s = true ->
  exists c r, s = c :: r /\ (Claimed.isDecimalDigit c = true \/ c = 46%N).
Proof.
  destruct s as [| c r]; [discriminate |]. intros H. exists c, r.
  split; [reflexivity |].
  unfold NumberField.validUnsigned in H.
  cbn [NumberField.skipDigits NumberField.startsWithDigit] in H.
  change (NumberField.isAsciiDigit c) with (Claimed.isDecimalDigit c) in H.
  destruct (Claimed.isDecimalDigit c); [now left | right].
  destruct (N.eqb_spec c 46); [assumption | discriminate H].
Qed.

Lemma validUnsigned_not_hex (s : text) :
  NumberField.validUnsigned s = true ->
  match s with
  | c0 :: c1 :: _ => (c0 =? 48)%N && ((c1 =? 120)%N || (c1 =? 88)%N)
  | _ => false
  end = false.
Proof.
  destruct s as [| c0 [| c1 r]]; try reflexivity. intros H.
  destruct (N.eqb_spec c0 48) as [-> |]; [| reflexivity].
  destruct (N.eqb_spec c1 120) as [-> |]; [vm_compute in H; discriminate H |].
  destruct (N.eqb_spec c1 88) as [-> |]; [vm_compute in H; discriminate H |].
  reflexivity.
Qed.

(** A valid floating-point number has nothing [parseInt] would skip or
    read in base 16: [parseInt] reads its decimal integer part. *)
Lemma parseIntMath_valid (s : text) :
  NumberField.validFloatingPointNumber s = true ->
  JS.parseIntMath s =
  match Claimed.decimalRun (NumberField.dropMinus s) with
  | [] => None
  | ds => Some (JS.isNegative s, Claimed.decimalValue ds)
  end.
Proof.
  unfold NumberField.validFloatingPointNumber. intros Hv.
  assert (Hs : JS.trimStart s = s /\ JS.dropSign s = NumberField.dropMinus s).
  { destruct s as [| c r]; [split; reflexivity |].
    unfold NumberField.dropMinus in *. cbn [JS.trimStart JS.dropSign].
    destruct (N.eqb_spec c 45) as [-> | Hc]; [split; reflexivity |].
    destruct (validUnsigned_head _ Hv) as (c' & r' & [= <- <-] & [Hd | ->]).
    - rewrite (digit_is_no_white_space c Hd).
      destruct (digit_is_no_sign c Hd) as [-> _]. split; reflexivity.
    - split; reflexivity. }
  destruct Hs as [Ht Hd].
  rewrite parseIntMath_decimal.
  - now rewrite Ht, Hd.
  - unfold JS.hexPrefixed. rewrite Ht, Hd. now apply validUnsigned_not_hex.
Qed.

(** What the field reports for a typed text, from the delivered one. *)
Lemma report_of_typed (w : World.t) (typed : text) :
  World.mounted w = true ->
  reported (snd (step w (InputChange (NumberField.sanitize typed)))) =
  [ of_Z (Claimed.clamp
            (Claimed.orZero
               (Claimed.leadingInteger (NumberField.sanitize typed)))) ].
Proof.
  intros Hm. rewrite step_InputChange, handleInputChange_parsed by exact Hm.
  cbn [reported flat_map app]. unfold NumberField.sanitize.
  destruct (NumberField.validFloatingPointNumber typed) eqn:Hv; [| reflexivity].
  rewrite (parseIntMath_valid _ Hv). unfold Claimed.leadingInteger.
  change (match typed with
          | c :: rest => if (c =? 45)%N then rest else typed
          | [] => []
          end) with (NumberField.dropMinus typed).
  change (match typed with
          | c :: _ => (c =? 45)%N
          | [] => false
          end) with (JS.isNegative typed).
  destruct (Claimed.decimalRun _); reflexivity.
Qed.

(** C10 as stated: every typed text reports the clamp of the decimal
    integer it begins with, and 0 without one.  The text 12abc begins
    with the integer 12; the field, being of type number, delivers the
    empty text for it, and 0 is reported. *)
Lemma number_field_trailing_letters_counterexample :
  ~ (forall (w : World.t) (typed : text),
        World.mounted w = true ->
        reported (snd (step w (InputChange (NumberField.sanitize typed)))) =
        [ of_Z (Claimed.clamp (Claimed.orZero (Claimed.leadingInteger typed))) ]).
Proof.
  intros H.
  specialize (H (mount (Props.mk (of_Z 0) 0 false)) (utf16 "12abc") eq_refl).
  rewrite report_of_typed in H by reflexivity.
  change (Claimed.clamp _) with 0 in H at 1.
  change (Claimed.clamp _) with 12 in H.
  rewrite !of_Z_exact in H by reflexivity.
  injection H as H. pose proof U_pos. lia.
Qed.

(** C10, amended: the field reports the clamp of the decimal integer
    that the text delivered to [handleInputChange] begins with, whatever
    follows the digits (12.7, -12.7 and 12e1 report 12), and [parseInt]
    yields NaN, coerced to 0, exactly when the delivered text has no such
    integer (the empty text, .5); a typed text that is not a valid
    floating-point number (12abc, abc, 0x1F) is delivered empty and
    reports 0. *)
Theorem number_field_reads_leading_integer (w : World.t) (typed : text) :
  World.mounted w = true ->
  let delivered := NumberField.sanitize typed in
  let report t :=
    reported (snd (step w (InputChange (NumberField.sanitize t)))) in
  report typed =
    [ of_Z (Claimed.clamp (Claimed.orZero (Claimed.leadingInteger delivered))) ] /\
  (JS.parseInt delivered = NaN <-> Claimed.leadingInteger delivered = None) /\
  (NumberField.validFloatingPointNumber typed = false ->
   report typed = [ of_Z 0 ]) /\
  report (utf16 "12.7") = [ of_Z 12 ] /\
  report (utf16 "-12.7") = [ of_Z 12 ] /\
  report (utf16 "12e1") = [ of_Z 12 ] /\
  report (utf16 "") = [ of_Z 0 ] /\
  report (utf16 ".5") = [ of_Z 0 ] /\
  report (utf16 "12abc") = [ of_Z 0 ] /\
  report (utf16 "abc") = [ of_Z 0 ] /\
  report (utf16 "0x1F") = [ of_Z 0 ].
Proof.
  intros Hm. cbv zeta beta. rewrite !report_of_typed by exact Hm.
  split; [reflexivity |]. split; [| split].
  - rewrite parseInt_NaN. unfold NumberField.sanitize.
    destruct (NumberField.validFloatingPointNumber typed) eqn:Hv.
    + rewrite (parseIntMath_valid _ Hv). unfold Claimed.leadingInteger.
      change (match typed with
              | c :: rest => if (c =? 45)%N then rest else typed
              | [] => []
              end) with (NumberField.dropMinus typed).
      destruct (Claimed.decimalRun _); split; try reflexivity; discriminate.
    + split; reflexivity.
  - unfold NumberField.sanitize. intros ->. reflexivity.
  - repeat split; reflexivity.
Qed.

Lemma number_field_reads_leading_integer_witness :
  reported (snd (step (mount (Props.mk (of_Z 100) 0 false))
                   (InputChange (NumberField.sanitize (utf16 "12.7"))))) =
  [ of_Z 12 ].
Proof.
  destruct (number_field_reads_leading_integer
              (mount (Props.mk (of_Z 100) 0 false)) (utf16 "12.7"))
    as (H & _).
  - reflexivity.
  - exact H.
Defined.

End NumericField.

(** * Further properties *)

(** ** The normaliser *)

Section NormaliserFurther.

(** X1: on every finite input the normaliser's result is never below 0
    and never above 360, and it is below 360 whenever the input is not
    negative. *)
Theorem normaliser_stays_within_a_turn (x : number) :
  finite x = true ->
  lt (normalizeRotation x) (of_Z 0) = false /\
  lt (of_Z 360) (normalizeRotation x) = false /\
  (lt x (of_Z 0) = false -> lt (normalizeRotation x) (of_Z 360) = true).
Proof.
  intros Hx. destruct (normalizeRotation_range_closed x Hx) as [H0 H360].
  split; [exact H0 |]. split; [exact H360 |].
  now apply normalizeRotation_range_nonneg.
Qed.

Lemma normaliser_stays_within_a_turn_witness :
  lt (normalizeRotation (of_Z (-725))) (of_Z 0) = false.
Proof.
  destruct (normaliser_stays_within_a_turn (of_Z (-725))) as [H _].
  - vm_compute. reflexivity.
  - exact H.
Defined.

(** X2: on every finite input the result is the mathematical residue of
    the input modulo 360, rounded to the nearest binary64: exact when the
    input is not negative, rounded once when it is. *)
Theorem normaliser_is_the_rounded_residue (x : number) :
  finite x = true ->
  strictEq (normalizeRotation x) (round (value x mod (360 * U))) = true /\
  (0 <= value x -> value (normalizeRotation x) = value x mod (360 * U)).
Proof.
  intros Hx. pose proof (normalizeRotation_cases x Hx) as C. cbv zeta in C.
  destruct C as [[Hr [E | E]] | [(Hr & Hp & E & R) | (Hr & Hn & E)]];
    rewrite E.
  - rewrite Hr. split; [reflexivity | intros _; reflexivity].
  - rewrite Hr. split; [reflexivity | intros _; reflexivity].
  - rewrite R. split; [cbn; apply Z.eqb_refl | intros _; reflexivity].
  - split; [apply strictEq_round_refl | intros; lia].
Qed.

Lemma normaliser_is_the_rounded_residue_witness :
  value (normalizeRotation (of_Z 725)) = value (of_Z 725) mod (360 * U).
Proof.
  destruct (normaliser_is_the_rounded_residue (of_Z 725)) as [_ H].
  - vm_compute. reflexivity.
  - apply H. vm_compute. discriminate.
Defined.

(** X3: on whole degrees below 2^53 in magnitude the normaliser returns
    exactly the residue modulo 360, except that a negative multiple of
    360 gives -0 where the residue is +0. *)
Theorem normaliser_exact_on_whole_degrees (z : Z) :
  Z.abs z < 2 ^ 53 ->
  normalizeRotation (of_Z z) =
    (if (z <? 0) && (z mod 360 =? 0) then NegZero else of_Z (z mod 360)) /\
  strictEq (normalizeRotation (of_Z z)) (of_Z (z mod 360)) = true.
Proof.
  intros Hz. rewrite normalizeRotation_of_Z by exact Hz.
  split; [reflexivity |].
  pose proof (Z.mod_pos_bound z 360 ltac:(lia)) as Hb.
  assert (H360 : 360 < 2 ^ 53) by reflexivity.
  destruct ((z <? 0) && (z mod 360 =? 0)) eqn:E.
  - apply andb_true_iff in E as [_ E]. apply Z.eqb_eq in E.
    rewrite E, of_Z_0. reflexivity.
  - rewrite of_Z_exact by lia. cbn. apply Z.eqb_refl.
Qed.

Lemma normaliser_exact_on_whole_degrees_witness :
  normalizeRotation (of_Z (-720)) = NegZero.
Proof.
  destruct (normaliser_exact_on_whole_degrees (-720)) as [H _].
  - reflexivity.
  - exact H.
Defined.

Lemma normalizeRotation_not_finite (x : number) :
  x = NaN \/ x = PosInf \/ x = NegInf -> normalizeRotation x = NaN.
Proof.
  unfold normalizeRotation. rewrite of_Z_360, of_Z_0.
  intros [-> | [-> | ->]]; reflexivity.
Qed.

(** X4: the normaliser yields NaN exactly on NaN and on the two
    infinities. *)
Theorem normaliser_NaN_iff (x : number) :
  normalizeRotation x = NaN <-> x = NaN \/ x = PosInf \/ x = NegInf.
Proof.
  split.
  - destruct x as [| | | | n].
    + intros _. left. reflexivity.
    + intros _. right. left. reflexivity.
    + intros _. right. right. reflexivity.
    + rewrite normalizeRotation_NegZero. discriminate.
    + rewrite normalizeRotation_Fin.
      destruct (_ =? 0); [destruct (n <? 0); discriminate |].
      destruct (_ <? 0); [| discriminate].
      intros H. now apply round_not_NaN in H.
  - apply normalizeRotation_not_finite.
Qed.

Lemma normalizeRotation_fixed (x : number) :
  lt x (of_Z 0) = false -> lt x (of_Z 360) = true -> normalizeRotation x = x.
Proof.
  rewrite of_Z_0, of_Z_360. pose proof U_pos as HU.
  destruct x as [| | | | n]; cbn [lt]; try discriminate.
  - intros _ _. apply normalizeRotation_NegZero.
  - intros H0 H1. apply Z.ltb_ge in H0. apply Z.ltb_lt in H1.
    rewrite normalizeRotation_mod, Z.mod_small by lia.
    destruct (Z.eqb_spec n 0) as [-> | Hn]; [reflexivity |].
    destruct (Z.ltb_spec n 0); [lia | reflexivity].
Qed.

(** X5: a number that is not below 0 and is below 360 is returned
    unchanged, whole or fractional, +0 and -0 included. *)
Theorem normaliser_fixes_the_range (x : number) :
  lt x (of_Z 0) = false -> lt x (of_Z 360) = true -> normalizeRotation x = x.
Proof. apply normalizeRotation_fixed. Qed.

Lemma normaliser_fixes_the_range_witness :
  normalizeRotation (of_float 0x1.ccccccccccccdp+0%float)
  = of_float 0x1.ccccccccccccdp+0%float.
Proof.
  apply (normaliser_fixes_the_range (of_float 0x1.ccccccccccccdp+0%float));
    vm_compute; reflexivity.
Defined.

(** X6: on a finite input, normalising twice is normalising once
    whenever the first result is below 360. *)
Theorem normaliser_idempotent_below_a_turn (x : number) :
  finite x = true ->
  lt (normalizeRotation x) (of_Z 360) = true ->
  normalizeRotation (normalizeRotation x) = normalizeRotation x.
Proof.
  intros Hx Hlt. destruct (normalizeRotation_range_closed x Hx) as [H0 _].
  apply normalizeRotation_fixed; assumption.
Qed.

Lemma normaliser_idempotent_below_a_turn_witness :
  normalizeRotation (normalizeRotation (of_Z (-725)))
  = normalizeRotation (of_Z (-725)).
Proof.
  apply (normaliser_idempotent_below_a_turn (of_Z (-725)));
    vm_compute; reflexivity.
Defined.

End NormaliserFurther.

(** ** The step controls and the slider *)

Section ControlsFurther.

Local Opaque normalizeRotation of_Z add sub JS.parseInt max min abs or.

Lemma clockwise_whole (z : Z) :
  0 <= z <= 359 ->
  normalizeRotation (add (of_Z z) (of_Z 15)) = of_Z ((z + 15) mod 360).
Proof.
  intros Hz. assert (E53 : 2 ^ 53 = 9007199254740992) by reflexivity.
  rewrite add_of_Z, normalizeRotation_of_Z by (rewrite E53; lia).
  destruct (Z.ltb_spec (z + 15) 0); [lia | reflexivity].
Qed.

Lemma counter_clockwise_whole (z : Z) :
  0 <= z <= 359 ->
  normalizeRotation (sub (of_Z z) (of_Z 15)) = of_Z ((z - 15) mod 360).
Proof.
  intros Hz. assert (E53 : 2 ^ 53 = 9007199254740992) by reflexivity.
  rewrite sub_of_Z, normalizeRotation_of_Z by (rewrite E53; lia).
  destruct (Z.eqb_spec ((z - 15) mod 360) 0) as [E | E];
    [| now rewrite andb_false_r].
  destruct (Z.ltb_spec (z - 15) 0) as [Hn | Hn]; [| reflexivity].
  exfalso. rewrite <- (Z.mod_add _ 1) in E by lia.
  rewrite Z.mod_small in E; lia.
Qed.

(** X11: on a whole rotation from 0 to 359, k clockwise steps report
    (r + 15 k) mod 360 and k counter-clockwise steps (r - 15 k) mod 360,
    each step taking the previous report as the rotation; so the two
    buttons undo each other and 24 steps either way come back to the
    start. *)
Theorem step_buttons_compose (z : Z) (k : nat) :
  0 <= z <= 359 ->
  let clockwise r := normalizeRotation (add r (of_Z 15)) in
  let counterClockwise r := normalizeRotation (sub r (of_Z 15)) in
  Nat.iter k clockwise (of_Z z) = of_Z ((z + 15 * Z.of_nat k) mod 360) /\
  Nat.iter k counterClockwise (of_Z z) = of_Z ((z - 15 * Z.of_nat k) mod 360) /\
  counterClockwise (clockwise (of_Z z)) = of_Z z /\
  clockwise (counterClockwise (of_Z z)) = of_Z z /\
  Nat.iter 24 clockwise (of_Z z) = of_Z z /\
  Nat.iter 24 counterClockwise (of_Z z) = of_Z z.
Proof.
  intros Hz clockwise counterClockwise.
  assert (CW : forall j, Nat.iter j clockwise (of_Z z)
                         = of_Z ((z + 15 * Z.of_nat j) mod 360)).
  { induction j as [| j IH].
    - change (Nat.iter 0 clockwise (of_Z z)) with (of_Z z).
      rewrite Z.mod_small by lia. f_equal. lia.
    - rewrite Nat.iter_succ, IH. unfold clockwise.
      rewrite clockwise_whole
        by (pose proof (Z.mod_pos_bound (z + 15 * Z.of_nat j) 360); lia).
      rewrite Zplus_mod_idemp_l. f_equal. f_equal. lia. }
  assert (CCW : forall j, Nat.iter j counterClockwise (of_Z z)
                          = of_Z ((z - 15 * Z.of_nat j) mod 360)).
  { induction j as [| j IH].
    - change (Nat.iter 0 counterClockwise (of_Z z)) with (of_Z z).
      rewrite Z.mod_small by lia. f_equal. lia.
    - rewrite Nat.iter_succ, IH. unfold counterClockwise.
      rewrite counter_clockwise_whole
        by (pose proof (Z.mod_pos_bound (z - 15 * Z.of_nat j) 360); lia).
      rewrite Zminus_mod_idemp_l. f_equal. f_equal. lia. }
  split; [apply CW |]. split; [apply CCW |].
  split; [| split; [| split]].
  - unfold clockwise, counterClockwise. rewrite clockwise_whole by exact Hz.
    rewrite counter_clockwise_whole
      by (pose proof (Z.mod_pos_bound (z + 15) 360); lia).
    rewrite Zminus_mod_idemp_l. f_equal.
    replace (z + 15 - 15) with z by lia. apply Z.mod_small. lia.
  - unfold clockwise, counterClockwise.
    rewrite counter_clockwise_whole by exact Hz.
    rewrite clockwise_whole
      by (pose proof (Z.mod_pos_bound (z - 15) 360); lia).
    rewrite Zplus_mod_idemp_l. f_equal.
    replace (z - 15 + 15) with z by lia. apply Z.mod_small. lia.
  - rewrite CW. f_equal. change (15 * Z.of_nat 24) with (1 * 360).
    rewrite Z.mod_add by lia. apply Z.mod_small. lia.
  - rewrite CCW. f_equal. change (15 * Z.of_nat 24) with (1 * 360).
    replace (z - 1 * 360) with (z + (-1) * 360) by lia.
    rewrite Z.mod_add by lia. apply Z.mod_small. lia.
Qed.

Lemma step_buttons_compose_witness :
  Nat.iter 3 (fun r => normalizeRotation (add r (of_Z 15))) (of_Z 330) = of_Z 15.
Proof.
  destruct (step_buttons_compose 330 3) as [H _].
  - lia.
  - exact H.
Defined.

(** X12: a key other than the left and right arrows calls nothing and
    changes nothing. *)
Theorem other_keys_do_nothing (w : World.t) (key : string) :
  key <> "ArrowLeft"%string -> key <> "ArrowRight"%string ->
  step w (KeyDown key) = (w, []).
Proof.
  intros HL HR. unfold step, dispatch, handleKeyDown.
  apply String.eqb_neq in HL, HR. rewrite HL, HR.
  destruct (World.mounted w); [| reflexivity].
  destruct (Props.showSlider (World.props w)); reflexivity.
Qed.

Lemma other_keys_do_nothing_witness :
  step (mount (Props.mk (of_Z 100) 0 false)) (KeyDown "ArrowUp")
  = (mount (Props.mk (of_Z 100) 0 false), []).
Proof.
  apply other_keys_do_nothing; discriminate.
Defined.

Lemma step_SliderChange (w : World.t) (value : number + list number) :
  World.mounted w = true ->
  Props.showSlider (World.props w) = true ->
  step w (SliderChange value) = (w, handleSliderChange (scope_of w) value).
Proof.
  destruct w as [m [rot cb ss] d ds r n dp cl doc]. cbn. intros -> ->.
  reflexivity.
Qed.

(** X13: in the slider layout, a slider value that is a whole number from
    0 to 359 is reported as it is; an array is read at its first element,
    and an empty array reports NaN.  In the compact layout the slider is
    not rendered and its event reaches nothing. *)
Theorem slider_reports_its_value (w : World.t) (z : Z) :
  World.mounted w = true ->
  0 <= z <= 359 ->
  (Props.showSlider (World.props w) = true ->
   reported (snd (step w (SliderChange (inl (of_Z z))))) = [ of_Z z ] /\
   (forall v rest,
       step w (SliderChange (inr (v :: rest))) = step w (SliderChange (inl v))) /\
   reported (snd (step w (SliderChange (inr [])))) = [ NaN ]) /\
  (Props.showSlider (World.props w) = false ->
   forall value, step w (SliderChange value) = (w, [])).
Proof.
  intros Hm Hz. split.
  - intros Hs. rewrite !step_SliderChange by assumption.
    unfold handleSliderChange. cbn [snd reported flat_map app nth].
    split; [| split].
    + assert (E53 : 2 ^ 53 = 9007199254740992) by reflexivity.
      rewrite normalizeRotation_of_Z by (rewrite E53; lia).
      rewrite Z.mod_small by lia.
      destruct (Z.ltb_spec z 0); [lia | reflexivity].
    + intros v rest. rewrite !step_SliderChange by assumption. reflexivity.
    + rewrite normalizeRotation_not_finite by (left; reflexivity).
      reflexivity.
  - intros Hs value. unfold step, dispatch. rewrite Hm, Hs. reflexivity.
Qed.

Lemma slider_reports_its_value_witness :
  reported (snd (step (mount (Props.mk (of_Z 0) 0 true))
                   (SliderChange (inl (of_Z 270))))) = [ of_Z 270 ].
Proof.
  destruct (slider_reports_its_value (mount (Props.mk (of_Z 0) 0 true)) 270)
    as [H _].
  - reflexivity.
  - lia.
  - destruct (H eq_refl) as [H' _]. exact H'.
Defined.

End ControlsFurther.

(** ** The numeric field and what it shows *)

Section FieldFurther.

(** X14: through the number field a minus sign is reflected away: for a
    text that does not itself begin with [-], typing [-] before it makes
    the field do what it does for the text alone. *)
Theorem number_field_ignores_the_minus_sign (w : World.t) (typed : text) :
  World.mounted w = true ->
  JS.isNegative typed = false ->
  snd (step w (InputChange (NumberField.sanitize (45%N :: typed)))) =
  snd (step w (InputChange (NumberField.sanitize typed))).
Proof.
  intros Hm Hn.
  assert (Hd : NumberField.dropMinus typed = typed).
  { destruct typed as [| c r]; [reflexivity |].
    cbn [JS.isNegative] in Hn. unfold NumberField.dropMinus. now rewrite Hn. }
  unfold NumberField.sanitize.
  destruct (NumberField.validFloatingPointNumber typed) eqn:Hv.
  - assert (Hv' : NumberField.validFloatingPointNumber (45%N :: typed) = true).
    { unfold NumberField.validFloatingPointNumber in *. now rewrite Hd in Hv. }
    rewrite Hv'.
    rewrite !step_InputChange, !handleInputChange_parsed by exact Hm.
    rewrite (parseIntMath_valid _ Hv), (parseIntMath_valid _ Hv'), Hd.
    change (NumberField.dropMinus (45%N :: typed)) with typed.
    destruct (Claimed.decimalRun typed) as [| d ds]; [reflexivity |].
    rewrite Hn. change (JS.isNegative (45%N :: typed)) with true.
    unfold Claimed.clamp. now rewrite Z.abs_opp.
  - assert (Hv' : NumberField.validFloatingPointNumber (45%N :: typed) = false).
    { unfold NumberField.validFloatingPointNumber in *. now rewrite Hd in Hv. }
    rewrite Hv'. reflexivity.
Qed.

Lemma number_field_ignores_the_minus_sign_witness :
  snd (step (mount (Props.mk (of_Z 0) 0 false))
         (InputChange (NumberField.sanitize (utf16 "-77.5"))))
  = snd (step (mount (Props.mk (of_Z 0) 0 false))
           (InputChange (NumberField.sanitize (utf16 "77.5")))).
Proof.
  apply (number_field_ignores_the_minus_sign
           (mount (Props.mk (of_Z 0) 0 false)) (utf16 "77.5"));
    reflexivity.
Defined.

(** *** The displayed value *)

Lemma Math_round_in_range (n : Z) :
  0 <= n < 360 * U ->
  let k := (2 * n + U) / (2 * U) in
  0 <= k <= 360 /\
  Math_round (Fin n) = (if k =? 0 then Fin 0 else Fin (k * U)) /\
  (k <= 359 <-> 2 * n < 719 * U).
Proof.
  intros Hn k. pose proof U_pos as HU.
  assert (Hk0 : 0 <= k) by (apply Z.div_pos; lia).
  assert (Hk1 : k < 361) by (apply Z.div_lt_upper_bound; lia).
  split; [lia |]. split.
  - unfold Math_round. fold k. destruct (Z.ltb_spec n 0); [lia | reflexivity].
  - split.
    + intros Hk. destruct (Z.lt_ge_cases (2 * n) (719 * U)) as [H | H]; [exact H |].
      assert (360 <= k) by (apply Z.div_le_lower_bound; lia). lia.
    + intros H. assert (k < 360) by (apply Z.div_lt_upper_bound; lia). lia.
Qed.

Lemma Math_round_whole (z : Z) : 0 <= z <= 359 -> Math_round (of_Z z) = of_Z z.
Proof.
  intros Hz. pose proof U_pos as HU.
  assert (E53 : 2 ^ 53 = 9007199254740992) by reflexivity.
  rewrite of_Z_exact by (rewrite E53; lia). unfold Math_round.
  replace (2 * (z * U) + U) with (z * (2 * U) + U) by ring.
  rewrite Z.div_add_l, (Z.div_small U (2 * U)), Z.add_0_r by lia.
  destruct (Z.eqb_spec z 0) as [-> | Hz0].
  - reflexivity.
  - reflexivity.
Qed.

(** X16: for a rotation that is not below 0 and is below 360, the value
    shown by the numeric field, the slider and aria-valuenow,
    [Math.round(rotation)], is a whole number from 0 to 360: it is 360,
    above the declared maximum 359, exactly from 359.5 on; a whole
    rotation from 0 to 359 is shown as it is. *)
Theorem displayed_value_is_whole (rotation : number) :
  lt rotation (of_Z 0) = false ->
  lt rotation (of_Z 360) = true ->
  (exists k,
      0 <= k <= 360 /\
      strictEq (Math_round rotation) (of_Z k) = true /\
      (k <= 359 <-> 2 * value rotation < 719 * U)) /\
  (forall z, 0 <= z <= 359 -> rotation = of_Z z -> Math_round rotation = rotation).
Proof.
  intros H0 H1. split.
  - rewrite of_Z_0 in H0. rewrite of_Z_360 in H1. pose proof U_pos as HU.
    assert (E53 : 2 ^ 53 = 9007199254740992) by reflexivity.
    destruct rotation as [| | | | n]; cbn [lt] in H0, H1; try discriminate.
    + exists 0. rewrite of_Z_0. cbn [value Math_round strictEq]. 
      split; [lia |]. split; [reflexivity | lia].
    + apply Z.ltb_ge in H0. apply Z.ltb_lt in H1.
      destruct (Math_round_in_range n ltac:(lia)) as (Hk & E & Hiff).
      exists ((2 * n + U) / (2 * U)). split; [exact Hk |]. split; [| exact Hiff].
      rewrite E, of_Z_exact by (rewrite E53; lia).
      destruct (Z.eqb_spec ((2 * n + U) / (2 * U)) 0) as [-> | Hk0].
      * reflexivity.
      * cbn [strictEq]. apply Z.eqb_refl.
  - intros z Hz ->. now apply Math_round_whole.
Qed.

Lemma displayed_value_is_whole_witness :
  Math_round (of_Z 359) = of_Z 359.
Proof.
  destruct (displayed_value_is_whole (of_Z 359)) as [_ H].
  - vm_compute. reflexivity.
  - vm_compute. reflexivity.
  - apply (H 359); [lia | reflexivity].
Defined.

(** *** The displayed text read back *)

Lemma decimalDigits_digits (fuel : nat) :
  forall n acc,
    Forall (fun c => Claimed.isDecimalDigit c = true) acc ->
    Forall (fun c => Claimed.isDecimalDigit c = true) (decimalDigits fuel n acc).
Proof.
  induction fuel as [| fuel IH]; intros n acc Hacc; [exact Hacc |].
  cbn [decimalDigits].
  assert (Hd : Claimed.isDecimalDigit (48 + n mod 10) = true).
  { unfold Claimed.isDecimalDigit.
    pose proof (N.mod_lt n 10 ltac:(discriminate)) as Hm.
    generalize dependent (n mod 10)%N. intros m Hm.
    apply andb_true_iff. split; apply N.leb_le; lia. }
  destruct (n / 10 =? 0)%N; [| apply IH]; constructor; assumption.
Qed.

Lemma decimalDigits_value (fuel : nat) :
  forall n acc,
    (n < 10 ^ N.of_nat fuel)%N ->
    fold_left (fun a c => a * 10 + Z.of_N (c - 48)) (decimalDigits fuel n acc) 0
    = fold_left (fun a c => a * 10 + Z.of_N (c - 48)) acc (Z.of_N n).
Proof.
  induction fuel as [| fuel IH]; intros n acc Hn.
  - cbn in Hn. replace n with 0%N by lia. reflexivity.
  - cbn [decimalDigits]. pose proof (N.div_mod n 10 ltac:(discriminate)) as Hdm.
    pose proof (N.mod_lt n 10 ltac:(discriminate)) as Hm.
    destruct (N.eqb_spec (n / 10) 0) as [E | E].
    + cbn [fold_left]. f_equal. rewrite E in Hdm.
      generalize dependent (n mod 10)%N. intros m Hdm Hm. lia.
    + rewrite IH.
      * cbn [fold_left]. f_equal.
        generalize dependent (n mod 10)%N. intros m Hdm Hm.
        generalize dependent (n / 10)%N. intros q E Hdm. lia.
      * replace (N.of_nat (S fuel)) with (N.succ (N.of_nat fuel)) in Hn by lia.
        rewrite N.pow_succ_r' in Hn.
        apply N.Div0.div_lt_upper_bound. exact Hn.
Qed.

Lemma decimalDigits_nonempty (fuel : nat) :
  forall n acc, acc <> [] \/ fuel <> O -> decimalDigits fuel n acc <> [].
Proof.
  induction fuel as [| fuel IH]; intros n acc [H | H]; cbn [decimalDigits];
    try assumption; try contradiction.
  - destruct (n / 10 =? 0)%N; [discriminate | apply IH; left; discriminate].
  - destruct (n / 10 =? 0)%N; [discriminate | apply IH; left; discriminate].
Qed.

Lemma decimalRun_all (l : text) :
  Forall (fun c => Claimed.isDecimalDigit c = true) l -> Claimed.decimalRun l = l.
Proof.
  induction 1 as [| c l Hc _ IH]; [reflexivity |].
  cbn [Claimed.decimalRun]. now rewrite Hc, IH.
Qed.

(** [parseInt] reads the decimal digits of a whole number back. *)
Lemma parseIntMath_decimalDigits (k : Z) :
  0 <= k < 2 ^ 53 ->
  JS.parseIntMath (decimalDigits 16 (Z.to_N k) []) = Some (false, k).
Proof.
  intros Hk.
  pose proof (decimalDigits_digits 16 (Z.to_N k) [] (Forall_nil _)) as Hd.
  assert (Hv : Claimed.decimalValue (decimalDigits 16 (Z.to_N k) []) = k).
  { unfold Claimed.decimalValue. rewrite decimalDigits_value.
    - cbn [fold_left]. lia.
    - change (10 ^ N.of_nat 16)%N with (Z.to_N 10000000000000000).
      assert (E53 : 2 ^ 53 = 9007199254740992) by reflexivity. lia. }
  destruct (decimalDigits 16 (Z.to_N k) []) as [| c l] eqn:E.
  { exfalso. revert E. apply decimalDigits_nonempty. right. discriminate. }
  pose proof (Forall_inv Hd) as Hc. pose proof (Forall_inv_tail Hd) as Hl.
  cbn beta in Hc. rewrite parseIntMath_decimal.
  - cbn [JS.trimStart]. rewrite (digit_is_no_white_space c Hc).
    destruct (digit_is_no_sign c Hc) as [H43 H45].
    unfold JS.dropSign, JS.isNegative. rewrite H43, H45. cbn [orb].
    rewrite decimalRun_all by exact Hd. now rewrite Hv.
  - unfold JS.hexPrefixed. cbn [JS.trimStart].
    rewrite (digit_is_no_white_space c Hc).
    destruct (digit_is_no_sign c Hc) as [H43 H45].
    unfold JS.dropSign. rewrite H43, H45. cbn [orb].
    destruct l as [| c1 l1]; [reflexivity |].
    pose proof (Forall_inv Hl) as Hc1. cbn beta in Hc1.
    unfold Claimed.isDecimalDigit in Hc1.
    apply andb_true_iff in Hc1 as [A B].
    apply N.leb_le in A. apply N.leb_le in B.
    replace (c1 =? 120)%N with false by (symmetry; apply N.eqb_neq; lia).
    replace (c1 =? 88)%N with false by (symmetry; apply N.eqb_neq; lia).
    now rewrite andb_false_r.
Qed.

Lemma toString_whole (k : Z) :
  0 <= k < 2 ^ 53 ->
  toString (Fin (k * U)) = Some (decimalDigits 16 (Z.to_N k) []).
Proof.
  intros Hk. pose proof U_pos as HU. unfold toString.
  rewrite Z.mod_mul, Z.div_mul by lia. rewrite Z.abs_eq by lia.
  destruct (Z.ltb_spec k (2 ^ 53)); [| lia].
  destruct (Z.ltb_spec (k * U) 0); [nia | reflexivity].
Qed.

Lemma report_of_decimalDigits (w : World.t) (k : Z) :
  World.mounted w = true -> 0 <= k < 2 ^ 53 ->
  reported (snd (step w (InputChange (decimalDigits 16 (Z.to_N k) []))))
  = [ of_Z (Z.min 359 k) ].
Proof.
  intros Hm Hk. rewrite step_InputChange, handleInputChange_parsed by exact Hm.
  rewrite parseIntMath_decimalDigits by exact Hk.
  cbn [reported flat_map app]. unfold Claimed.clamp.
  f_equal. f_equal. lia.
Qed.

(** X17: for a rotation that is not below 0 and is below 360, the text
    the numeric field shows, [Math.round(rotation).toString()], typed
    back into the field reports the value shown, capped at 359: a whole
    rotation from 0 to 359 is reported as it is, and only the display 360
    (rotation from 359.5 on) comes back as 359. *)
Theorem displayed_text_reads_back (w : World.t) (rotation : number) :
  World.mounted w = true ->
  lt rotation (of_Z 0) = false ->
  lt rotation (of_Z 360) = true ->
  exists t k,
    inputText rotation = Some t /\
    0 <= k <= 360 /\
    strictEq (Math_round rotation) (of_Z k) = true /\
    reported (snd (step w (InputChange t))) = [ of_Z (Z.min 359 k) ] /\
    (forall z, 0 <= z <= 359 -> rotation = of_Z z -> of_Z (Z.min 359 k) = rotation).
Proof.
  intros Hm H0 H1. rewrite of_Z_0 in H0. rewrite of_Z_360 in H1.
  destruct rotation as [| | | | n]; cbn [lt] in H0, H1;
    try discriminate H0; try discriminate H1.
  all: pose proof U_pos as HU.
  all: assert (E53 : 2 ^ 53 = 9007199254740992) by reflexivity.
  - exists (decimalDigits 16 (Z.to_N 0) []), 0.
    split; [reflexivity |]. split; [lia |].
    split; [rewrite of_Z_0; reflexivity |].
    split; [apply report_of_decimalDigits; [exact Hm | rewrite E53; lia] |].
    intros z Hz E. rewrite of_Z_exact in E by (rewrite E53; lia). discriminate E.
  - apply Z.ltb_ge in H0. apply Z.ltb_lt in H1.
    destruct (Math_round_in_range n ltac:(lia)) as (Hk & E & _).
    set (k := (2 * n + U) / (2 * U)) in *.
    exists (decimalDigits 16 (Z.to_N k) []), k.
    assert (ER : Math_round (Fin n) = Fin (k * U)).
    { rewrite E. destruct (Z.eqb_spec k 0) as [-> | _]; reflexivity. }
    split; [| split; [exact Hk | split; [| split]]].
    + unfold inputText. rewrite ER. apply toString_whole. rewrite E53. lia.
    + rewrite ER, of_Z_exact by (rewrite E53; lia). cbn [strictEq].
      apply Z.eqb_refl.
    + apply report_of_decimalDigits; [exact Hm | rewrite E53; lia].
    + intros z Hz Ez. rewrite Ez.
      rewrite of_Z_exact in Ez by (rewrite E53; lia).
      injection Ez as ->. f_equal. subst k.
      replace (2 * (z * U) + U) with (z * (2 * U) + U) by ring.
      rewrite Z.div_add_l, (Z.div_small U (2 * U)), Z.add_0_r by lia. lia.
Qed.

Lemma displayed_text_reads_back_witness :
  exists t k,
    inputText (of_float 0x1.67ccccccccccdp+8%float) = Some t /\
    0 <= k <= 360 /\
    strictEq (Math_round (of_float 0x1.67ccccccccccdp+8%float)) (of_Z k) = true /\
    reported (snd (step (mount (Props.mk (of_Z 0) 0 false)) (InputChange t)))
    = [ of_Z (Z.min 359 k) ] /\
    (forall z, 0 <= z <= 359 -> of_float 0x1.67ccccccccccdp+8%float = of_Z z ->
               of_Z (Z.min 359 k) = of_float 0x1.67ccccccccccdp+8%float).
Proof.
  apply (displayed_text_reads_back (mount (Props.mk (of_Z 0) 0 false))
           (of_float 0x1.67ccccccccccdp+8%float)).
  - reflexivity.
  - vm_compute. reflexivity.
  - vm_compute. reflexivity.
Defined.

End FieldFurther.
